(** * trezorCipherKeyValue: the pipeline filter around the Trezor
      cipher-key-value operation

    The repository holds three revisions of the one [main] package:
    - [src/main.go]            (module [MainGo]):  stdin only, [trezor.New];
    - [src/unnamed/part_001]   (module [Part001]): askpass by [exec.Command],
      pinentry, device reset, input from the environment or a file;
    - [src/unnamed/part_002]   (module [Part002]): askpass discovery, askpass
      behind a pseudo-terminal, the dummy device, [EncryptKey]/[DecryptKey].

    Each [main] is embedded as a function of the parsed flags and of the
    world the process runs in, in a monad that records the effects of the run
    in program order and stops at [os.Exit] or [panic]. *)

From Stdlib Require Import List Bool Arith ZArith NArith Lia.
From Stdlib.Strings Require Import Ascii String Byte.
Import ListNotations.

Local Open Scope string_scope.

(** ** Go strings and byte slices *)

(** A Go [[]byte] is a list of bytes, a Go [string] a [string]; the
    conversions [[]byte(s)] and [string(b)] keep every byte. *)
Definition bytes := list byte.

Definition bytes_of_string (s : string) : bytes := list_byte_of_string s.
Definition string_of_bytes (b : bytes) : string := string_of_list_byte b.

(** The line feed and carriage return of the Go literals ["\n"] and ["\r"]. *)
Definition LF : ascii := "010"%char.
Definition CR : ascii := "013"%char.
Definition nl : string := String LF EmptyString.
(** The double quote inside the Go format strings. *)
Definition dq : string := String "034"%char EmptyString.

(** ** encoding/hex *)

Definition hextable : string := "0123456789abcdef".

(** [hextable[i]]; Go panics on an index out of range, which the two call
    sites below never produce (both indices are below 16). *)
Definition hextable_at (i : N) : ascii :=
  match String.get (N.to_nat i) hextable with
  | Some c => c
  | None => "000"%char
  end.

(** [hex.Encode]: [dst[j] = hextable[v>>4]; dst[j+1] = hextable[v&0x0f]]. *)
Fixpoint hex_EncodeToString (src : bytes) : string :=
  match src with
  | [] => EmptyString
  | v :: rest =>
      String (hextable_at (N.shiftr (Byte.to_N v) 4))
        (String (hextable_at (N.land (Byte.to_N v) 15))
           (hex_EncodeToString rest))
  end.

(** ['0'..'9'] or ['a'..'f']. *)
Definition is_lower_hex (c : ascii) : bool :=
  let n := nat_of_ascii c in
  (((48 <=? n) && (n <=? 57)) || ((97 <=? n) && (n <=? 102)))%nat.

Definition is_lower_hex_byte (b : byte) : bool :=
  is_lower_hex (ascii_of_byte b).

(** ** The decrypt-side block of [main]

    The three revisions share this block verbatim (main.go 62-76,
    part_001 180-194, part_002 201-215; only the panic text differs):
<<
    if *decryptFlag {
        var dataHexed string
        if !*hexFlag { dataHexed = hex.EncodeToString(data) }
        else         { dataHexed = string(data) }
        if len(dataHexed)%2 != 0 { panic(`len(dataHexed) is odd`) }
        for len(dataHexed)%32 != 0 { dataHexed += "00" }
        data = []byte(dataHexed)
    }
>> *)

(** The first assignment of [dataHexed]. *)
Definition dataHexed_init (hexFlag : bool) (data : bytes) : string :=
  if negb hexFlag then hex_EncodeToString data else string_of_bytes data.

(** [for len(dataHexed)%32 != 0 { dataHexed += "00" }].  The Go loop has no
    bound; [fuel] counts the iterations still allowed and [None] means that
    they ran out. *)
Fixpoint pad_loop (fuel : nat) (dataHexed : string) : option string :=
  match fuel with
  | O => None
  | S fuel' =>
      if negb (String.length dataHexed mod 32 =? 0)%nat
      then pad_loop fuel' (dataHexed ++ "00")
      else Some dataHexed
  end.

(** Iterations granted to the loop: [pad_loop_fuel_enough] shows that an
    even-length string never needs more, and that more changes nothing. *)
Definition pad_fuel : nat := 16.

(** How the block ends. *)
Inductive Normalized :=
| Payload (data : bytes)       (* [data = []byte(dataHexed)] *)
| OddLength                    (* the [panic] of the parity check *)
| Diverges.                    (* the loop did not stop within [pad_fuel] *)

Definition decrypt_normalize (hexFlag : bool) (data : bytes) : Normalized :=
  let dataHexed := dataHexed_init hexFlag data in
  if negb (String.length dataHexed mod 2 =? 0)%nat then OddLength
  else match pad_loop pad_fuel dataHexed with
       | Some dataHexed' => Payload (bytes_of_string dataHexed')
       | None => Diverges
       end.

(** ["00"] written [k] times. *)
Fixpoint zero_pairs (k : nat) : string :=
  match k with
  | O => EmptyString
  | S k' => "00" ++ zero_pairs k'
  end.

(** The number of characters the spec gives for the padding of a hex text
    of length [n]: [(32 - (n mod 32)) mod 32]. *)
Definition pad_chars (n : nat) : nat := (32 - n mod 32) mod 32.

(** ** strings.Split, strings.Trim *)

(** [strings.Split(s, sep)] for a separator of one byte: the pieces between
    the separators, one piece (possibly empty) when there is none.  The
    result is never empty, so the branch for [[]] is never taken. *)
Fixpoint strings_Split (s : string) (sep : ascii) : list string :=
  match s with
  | EmptyString => [EmptyString]
  | String c s' =>
      let rest := strings_Split s' sep in
      if Ascii.eqb c sep then EmptyString :: rest
      else match rest with
           | [] => [String c EmptyString]
           | piece :: pieces => String c piece :: pieces
           end
  end.

Definition in_cutset (cutset : string) (c : ascii) : bool :=
  existsb (Ascii.eqb c) (list_ascii_of_string cutset).

(** [strings.TrimLeft]: drop the leading bytes that are in the cutset. *)
Fixpoint strings_TrimLeft (s cutset : string) : string :=
  match s with
  | EmptyString => EmptyString
  | String c s' => if in_cutset cutset c then strings_TrimLeft s' cutset else s
  end.

(** [strings.TrimRight]: drop the trailing bytes that are in the cutset. *)
Fixpoint strings_TrimRight (s cutset : string) : string :=
  match s with
  | EmptyString => EmptyString
  | String c s' =>
      match strings_TrimRight s' cutset with
      | EmptyString => if in_cutset cutset c then EmptyString
                       else String c EmptyString
      | r => String c r
      end
  end.

(** [strings.Trim(s, cutset)]: "all leading and trailing Unicode code points
    contained in cutset removed"; the cutsets used here are ASCII. *)
Definition strings_Trim (s cutset : string) : string :=
  strings_TrimRight (strings_TrimLeft s cutset) cutset.

(** For what the trimming leaves: a text made of cutset bytes only, the
    first and the last byte of a text, and a byte outside the cutset. *)
Fixpoint all_in_cutset (cutset s : string) : bool :=
  match s with
  | EmptyString => true
  | String c s' => in_cutset cutset c && all_in_cutset cutset s'
  end.

Definition first_char (s : string) : option ascii :=
  match s with
  | EmptyString => None
  | String c _ => Some c
  end.

Fixpoint last_char (s : string) : option ascii :=
  match s with
  | EmptyString => None
  | String c EmptyString => Some c
  | String _ s' => last_char s'
  end.

Definition outside (cutset : string) (o : option ascii) : Prop :=
  match o with
  | Some c => in_cutset cutset c = false
  | None => True
  end.

(** ** The process and its world *)

(** A Go [error], by its message; [None] is [nil]. *)
Definition error := string.

Inductive Handle := os_Stdin | os_Stdout | os_Stderr | Buffer.

(** [exec.Cmd], the fields this program sets; [None] is the zero value. *)
Record Cmd := mkCmd {
  cmd_Path : string;
  cmd_Args : list string;
  cmd_Stdin : option Handle;
  cmd_Stdout : option Handle;
  cmd_Stderr : option Handle
}.

(** [exec.Command(name, arg...)]: [Args] holds [name] followed by [arg].
    The name is kept as given; the lookup of a bare name in [PATH] is left
    to the world that runs the command. *)
Definition exec_Command (name : string) (arg : list string) : Cmd :=
  mkCmd name (name :: arg) None None None.

(** The four strings the device facade passes to a prompt callback. *)
Record Prompt := mkPrompt {
  title : string;
  description : string;
  ok : string;
  cancel : string
}.

(** What the device facade does during one of its operations: it answers, or
    it first calls the registered PIN or confirmation callback and goes on
    from the callback's return values. *)
Inductive Device (R : Type) : Type :=
| Answer (r : R)
| AskPin (p : Prompt) (k : bytes * option error -> Device R)
| AskConfirm (p : Prompt) (k : bool * option error -> Device R).
Arguments Answer {R} r.
Arguments AskPin {R} p k.
Arguments AskConfirm {R} p k.

(** A wallet of [cryptoWallet] (external): only its contract is known. *)
Record Wallet := mkWallet {
  isTrezor : bool;   (* the type assertion to [cryptoWalletInterfaces.Trezor] *)
  wallet_Reset : Device (option error);
  wallet_CipherKeyValue :
    string -> bool -> string -> bytes -> bytes -> bool -> bool ->
    Device (bytes * Z);
  wallet_EncryptKey :
    string -> bytes -> bytes -> string -> Device (bytes * option error);
  wallet_DecryptKey :
    string -> bytes -> bytes -> string -> Device (bytes * option error)
}.

(** What the process finds around it.  Every field is the result the named
    library call gives back. *)
Record World := mkWorld {
  os_Getenv : string -> string;
  os_Stat : string -> option error;
  path_Join : string -> string -> string;
  ioutil_ReadAll_Stdin : bytes * option error;
  ioutil_ReadFile : string -> bytes * option error;
  (* the instance of [trezor.New()] in main.go, which prompts by itself *)
  trezor_CipherKeyValue :
    string -> bool -> string -> bytes -> bytes -> bool -> bool -> bytes * Z;
  cryptoWallet_FindAny : option Wallet;
  cryptoWallet_NewDummy : option Wallet;
  pinentry_GetPin : Prompt -> bytes * option error;
  cmd_Output : Cmd -> bytes * option error;
  (* [pty.Start]: an error, or the bytes relayed from the pseudo-terminal
     and the content of the [bytes.Buffer] given as [cmd.Stdout] *)
  pty_Start : Cmd -> error + string * string;
  terminal_MakeRaw : option error
}.

(** The flags after [getopt.Parse()]; each revision declares a subset. *)
Record Flags := mkFlags {
  helpFlag : bool;
  encryptFlag : bool;
  decryptFlag : bool;
  dummyDeviceFlag : bool;
  hexFlag : bool;
  verboseFlag : bool;
  keyNameParameter : string;
  askpassPathParameter : string;
  usePinentryFlag : bool;
  inputValueFileParameter : string
}.

(** The steps of the orchestration (specification, section 4.5). *)
Inductive Step :=
| StMode        (* the mode is selected: one of the two flags is set *)
| StBackend     (* the prompt backend is constructed and registered *)
| StReset       (* the device session is reset *)
| StInput       (* the input is acquired *)
| StPad         (* the decrypt-side block runs *)
| StCipher      (* the cipher operation is invoked *)
| StValidate    (* the status, in part_002 the error, is checked *)
| StHex         (* the result is hex-encoded *)
| StOutput.     (* the result is written *)

(** The effects of a run, in program order.  [EvStep] is no effect: it marks
    the place where the run enters a step that calls nothing (mode
    selection, input acquisition, padding, validation, hex encoding). *)
Inductive Event :=
| EvStep (s : Step)
| EvUsage                                   (* getopt.Usage() *)
| EvGetenv (name : string)                  (* os.Getenv(name) *)
| EvStat (name : string)                    (* os.Stat(name) *)
| EvWrite (h : Handle) (s : string)         (* fmt.Println, fmt.Fprintf, ... *)
| EvOutput (s : string)                     (* the closing fmt.Print(string(result)) *)
| EvReadStdin                               (* ioutil.ReadAll(os.Stdin) *)
| EvReadFile (path : string)                (* ioutil.ReadFile(path) *)
| EvTrezorNew                               (* trezor.New() *)
| EvFindAny                                 (* cryptoWallet.FindAny() *)
| EvNewDummy                                (* cryptoWallet.NewDummy() *)
| EvSetDefaultAskOnEncode (b : bool)
| EvNewPinentryClient
| EvPinentrySet (field value : string)      (* p.SetTitle, p.SetDesc, ... *)
| EvPinentryGetPin
| EvPinentryClose
| EvSetGetPinFunc
| EvSetGetConfirmFunc
| EvReset
| EvResetReturned (err : option error)
| EvCipherKeyValue (path : string) (isEncrypt : bool) (keyName : string)
    (data iv : bytes) (askOnEncrypt askOnDecrypt : bool)
| EvCipherReturned (result : bytes) (msgType : Z)
| EvEncryptKey (path : string) (data iv : bytes) (keyName : string)
| EvDecryptKey (path : string) (data iv : bytes) (keyName : string)
| EvKeyReturned (result : bytes) (err : option error)
| EvCmdOutput (c : Cmd)                     (* cmd.Output() *)
| EvPtyStart (c : Cmd)                      (* pty.Start(cmd) *)
| EvPtyClose
| EvMakeRaw
| EvTerminalRestore
| EvGoCopyStdinToPty.                       (* go io.Copy(ptmx, os.Stdin) *)

Inductive PanicValue :=
| PanicString (s : string)
| PanicError (s : string)
| PanicUnexpectedMessage (msgType : Z) (result : string).

(** How a run stops before the end of [main]. *)
Inductive Halt :=
| Exit (code : Z)            (* os.Exit(code) *)
| Panic (v : PanicValue)     (* panic(v) *)
| OutOfFuel.                 (* the padding loop did not stop *)

Inductive Res (A : Type) : Type :=
| Val (a : A)
| Stop (h : Halt).
Arguments Val {A} a.
Arguments Stop {A} h.

(** A computation: the events it produced and how it ended. *)
Definition IO (A : Type) : Type := list Event * Res A.

Definition ret {A} (a : A) : IO A := ([], Val a).

Definition bind {A B} (m : IO A) (k : A -> IO B) : IO B :=
  match m with
  | (t, Val a) => let (t', r) := k a in ((t ++ t')%list, r)
  | (t, Stop h) => (t, Stop h)
  end.

Declare Scope io_scope.
Delimit Scope io_scope with io.
Notation "x <- m ;; k" := (bind m (fun x => k))
  (at level 61, m at next level, right associativity) : io_scope.
Notation "m ;; k" := (bind m (fun _ => k))
  (at level 61, right associativity) : io_scope.
Local Open Scope io_scope.

Definition emit (e : Event) : IO unit := ([e], Val tt).
Definition halt {A} (h : Halt) : IO A := ([], Stop h).
Definition os_Exit {A} (code : Z) : IO A := halt (Exit code).
Definition panic {A} (v : PanicValue) : IO A := halt (Panic v).
Definition when (b : bool) (m : IO unit) : IO unit := if b then m else ret tt.

(** [defer d] around the rest of the function: [d] runs when the function
    returns and when it panics, not when the process leaves by [os.Exit]. *)
Definition defer {A} (d : IO unit) (body : IO A) : IO A :=
  match body with
  | (t, Val a) => let (t', r) := d in
                  ((t ++ t')%list, match r with Val _ => Val a | Stop h => Stop h end)
  | (t, Stop (Panic v)) => ((t ++ fst d)%list, Stop (Panic v))
  | (t, Stop h) => (t, Stop h)
  end.

Definition events {A} (m : IO A) : list Event := fst m.
Definition outcome {A} (m : IO A) : Res A := snd m.

Definition fmt_Printf (s : string) : IO unit := emit (EvWrite os_Stdout s).
Definition fmt_Println (s : string) : IO unit := emit (EvWrite os_Stdout (s ++ nl)).
Definition fmt_Fprintf (h : Handle) (s : string) : IO unit := emit (EvWrite h s).
Definition fmt_Fprintln (h : Handle) (s : string) : IO unit :=
  emit (EvWrite h (s ++ nl)).

(** The facade calls the registered callbacks synchronously. *)
Fixpoint run_device {R} (getPin : Prompt -> IO (bytes * option error))
    (getConfirm : Prompt -> IO (bool * option error)) (d : Device R) : IO R :=
  match d with
  | Answer r => ret r
  | AskPin p k => a <- getPin p ;; run_device getPin getConfirm (k a)
  | AskConfirm p k => a <- getConfirm p ;; run_device getPin getConfirm (k a)
  end.

(** ** What the three revisions share *)

Definition EINVAL : Z := 22.

(** [messages.MessageType_MessageType_Success] and [..._CipheredKeyValue]
    of the imported [tesoro/pb/messages] (the protocol's message numbers). *)
Definition MessageType_Success : Z := 2.
Definition MessageType_CipheredKeyValue : Z := 48.

(** [func usage() int]. *)
Definition usage : IO Z := emit EvUsage ;; ret EINVAL.

(** [func checkError(err error)]. *)
Definition checkError (err : option error) : IO unit :=
  match err with
  | None => ret tt
  | Some e => fmt_Fprintln os_Stderr ("Got error: " ++ e) ;; os_Exit (-1)
  end.

(** The [if *decryptFlag { ... }] block; [msg] is the panic text. *)
Definition decrypt_block (msg : string) (hexFlag : bool) (data : bytes)
  : IO bytes :=
  emit (EvStep StPad) ;;
  match decrypt_normalize hexFlag data with
  | Payload data' => ret data'
  | OddLength => panic (PanicString msg)
  | Diverges => halt OutOfFuel
  end.

(** [switch msgType { case Success, CipheredKeyValue: default: panic(...) }]. *)
Definition status_accepted (msgType : Z) : bool :=
  (msgType =? MessageType_Success)%Z || (msgType =? MessageType_CipheredKeyValue)%Z.

Definition check_status (result : bytes) (msgType : Z) : IO unit :=
  emit (EvStep StValidate) ;;
  if status_accepted msgType then ret tt
  else panic (PanicUnexpectedMessage msgType (string_of_bytes result)).

(** [if *encryptFlag && *hexFlag { result = []byte(hex.EncodeToString(result)) }]
    followed by [fmt.Print(string(result))]. *)
Definition print_result (f : Flags) (result : bytes) : IO unit :=
  result <- (if encryptFlag f && hexFlag f
             then emit (EvStep StHex) ;;
                  ret (bytes_of_string (hex_EncodeToString result))
             else ret result) ;;
  emit (EvOutput (string_of_bytes result)).

(** The confirmation callback of part_001 149-151 and part_002 188-190:
    [return false, nil]. *)
Definition getConfirmFunc (_ : Prompt) : IO (bool * option error) :=
  ret (false, None).

(** The pinentry callback of part_001 130-137 and part_002 153-160. *)
Definition getPinFunc_pinentry (w : World) (p : Prompt)
  : IO (bytes * option error) :=
  emit (EvPinentrySet "Title" (title p)) ;;
  emit (EvPinentrySet "Desc" (description p)) ;;
  emit (EvPinentrySet "Prompt" (title p)) ;;
  emit (EvPinentrySet "OK" (ok p)) ;;
  emit (EvPinentrySet "Cancel" (cancel p)) ;;
  emit EvPinentryGetPin ;;
  ret (pinentry_GetPin w p).

(** Input acquisition of part_001 161-178 and part_002 112-129; the
    progress lines go to [verboseTo] (stdout in part_001, stderr in
    part_002). *)
Definition acquire_input (verboseTo : Handle) (f : Flags) (w : World)
  : IO bytes :=
  emit (EvStep StInput) ;;
  emit (EvGetenv "TREZOR_CIPHER_VALUE") ;;
  let data := bytes_of_string (os_Getenv w "TREZOR_CIPHER_VALUE") in
  if (List.length data =? 0)%nat then
    if (inputValueFileParameter f =? "-")%string then
      when (verboseFlag f)
        (fmt_Fprintln verboseTo "Reading the data from stdin.") ;;
      emit EvReadStdin ;;
      let (data, err) := ioutil_ReadAll_Stdin w in
      checkError err ;;
      ret data
    else
      when (verboseFlag f)
        (fmt_Fprintf verboseTo
           ("Reading the data file " ++ dq ++ inputValueFileParameter f ++ dq ++ nl)) ;;
      emit (EvReadFile (inputValueFileParameter f)) ;;
      let (data, err) := ioutil_ReadFile w (inputValueFileParameter f) in
      checkError err ;;
      ret data
  else ret data.

(** ** src/main.go *)

Module MainGo.

(** "Just some random values (from /dev/random)". *)
Definition iv : bytes :=
  [xf9; xa1; x99; xec; xa6; x81; x78; x19; xcc; x67; x55; x61; x6e; xc3; x1e; xd8].

Definition derivation_path : string := "m/71'/a6'/3'/45'/97'".

Definition main (f : Flags) (w : World) : IO unit :=
  when (helpFlag f) (code <- usage ;; os_Exit code) ;;
  when (negb (encryptFlag f) && negb (decryptFlag f))
    (fmt_Fprintln os_Stderr
       ("Error: Flag --encrypt or --decrypt is required." ++ nl) ;;
     code <- usage ;; os_Exit code) ;;
  emit (EvStep StMode) ;;
  emit EvTrezorNew ;;
  emit (EvStep StInput) ;;
  when (verboseFlag f) (fmt_Println "Reading the data from stdin.") ;;
  emit EvReadStdin ;;
  let (stdinBytes, err) := ioutil_ReadAll_Stdin w in
  checkError err ;;
  let data := stdinBytes in
  data <- (if decryptFlag f
           then decrypt_block "len(dataHexed) is odd" (hexFlag f) data
           else ret data) ;;
  when (verboseFlag f)
    (fmt_Println
       "Sent a request to a Trezor device (please confirm the operation if required).") ;;
  emit (EvCipherKeyValue derivation_path (encryptFlag f) (keyNameParameter f)
          data iv true true) ;;
  let (result, msgType) :=
    trezor_CipherKeyValue w derivation_path (encryptFlag f)
      (keyNameParameter f) data iv true true in
  emit (EvCipherReturned result msgType) ;;
  check_status result msgType ;;
  print_result f result.

End MainGo.

(** ** src/unnamed/part_001 *)

Module Part001.

Definition iv : bytes := bytes_of_string "trezorCipher IV".

Definition derivation_path : string := "m/10019'/1'".

(** The askpass callback, 139-147. *)
Definition getPinFunc_askpass (f : Flags) (w : World) (p : Prompt)
  : IO (bytes * option error) :=
  when (verboseFlag f)
    (fmt_Printf ("Running command " ++ dq ++ askpassPathParameter f ++ " "
                ++ title p ++ dq ++ nl)) ;;
  let cmd := exec_Command (askpassPathParameter f) [title p] in
  let cmd := mkCmd (cmd_Path cmd) (cmd_Args cmd) (Some os_Stdin)
                   (cmd_Stdout cmd) (cmd_Stderr cmd) in
  let cmd := mkCmd (cmd_Path cmd) (cmd_Args cmd) (cmd_Stdin cmd)
                   (cmd_Stdout cmd) (Some os_Stderr) in
  emit (EvCmdOutput cmd) ;;
  ret (cmd_Output w cmd).

Definition main (f : Flags) (w : World) : IO unit :=
  when (helpFlag f) (usage ;; os_Exit 0) ;;
  when (negb (encryptFlag f) && negb (decryptFlag f))
    (fmt_Fprintln os_Stderr
       ("Error: Flag --encrypt or --decrypt is required." ++ nl) ;;
     code <- usage ;; os_Exit code) ;;
  emit (EvStep StMode) ;;
  emit EvFindAny ;;
  match cryptoWallet_FindAny w with
  | None => panic (PanicString "No trezor devices found")
  | Some trezorInstance =>
    if negb (isTrezor trezorInstance)
    then panic (PanicString "No trezor devices found")
    else
      when (usePinentryFlag f) (emit EvNewPinentryClient) ;;
      defer (when (usePinentryFlag f) (emit EvPinentryClose))
       (let getPin := if usePinentryFlag f then getPinFunc_pinentry w
                      else getPinFunc_askpass f w in
        emit EvSetGetPinFunc ;;
        emit EvSetGetConfirmFunc ;;
        when (verboseFlag f)
          (fmt_Println "Setting Trezor device state to the initial state.") ;;
        emit EvReset ;;
        err <- run_device getPin getConfirmFunc (wallet_Reset trezorInstance) ;;
        emit (EvResetReturned err) ;;
        match err with
        | Some _ =>
            panic (PanicError
                     "Cannot set the Trezor device state to the initial state")
        | None =>
          data <- acquire_input os_Stdout f w ;;
          data <- (if decryptFlag f
                   then decrypt_block "len(dataHexed) is odd" (hexFlag f) data
                   else ret data) ;;
          when (verboseFlag f)
            (fmt_Println
               "Sent a request to a Trezor device (please confirm the operation if required).") ;;
          emit (EvCipherKeyValue derivation_path (encryptFlag f)
                  (keyNameParameter f) data iv true true) ;;
          r <- run_device getPin getConfirmFunc
                 (wallet_CipherKeyValue trezorInstance derivation_path
                    (encryptFlag f) (keyNameParameter f) data iv true true) ;;
          let (result, msgType) := r : bytes * Z in
          emit (EvCipherReturned result msgType) ;;
          check_status result msgType ;;
          print_result f result
        end)
  end.

End Part001.

(** ** src/unnamed/part_002 *)

Module Part002.

Definition cryptsetupAskpassPath : string := "/lib/cryptsetup/askpass".
Definition systemdAskpassPath : string := "systemd-ask-password".

Definition iv : bytes := bytes_of_string "trezorCipher IV".

Definition derivation_path : string := "m/10019'/1'".

Definition stat_ok (w : World) (name : string) : bool :=
  match os_Stat w name with None => true | Some _ => false end.

(** The [for _, dir := range ...] of [checkIfExecutableExists]. *)
Fixpoint stat_in_dirs (w : World) (name : string) (dirs : list string)
  : IO bool :=
  match dirs with
  | [] => ret false
  | dir :: dirs' =>
      emit (EvStat (path_Join w dir name)) ;;
      if stat_ok w (path_Join w dir name) then ret true
      else stat_in_dirs w name dirs'
  end.

(** [func checkIfExecutableExists(name string) bool]. *)
Definition checkIfExecutableExists (w : World) (name : string) : IO bool :=
  match name with
  | EmptyString => ret false
  | String c _ =>
      if Ascii.eqb c "/" then emit (EvStat name) ;; ret (stat_ok w name)
      else
        emit (EvGetenv "PATH") ;;
        stat_in_dirs w name (strings_Split (os_Getenv w "PATH") ":")
  end.

(** The [if *askpassPathParameter == "" { switch ... }] of 100-110: the
    value of [*askpassPathParameter] afterwards. *)
Definition discover_askpass (f : Flags) (w : World) : IO string :=
  if (askpassPathParameter f =? EmptyString)%string then
    found <- checkIfExecutableExists w cryptsetupAskpassPath ;;
    if found : bool then ret cryptsetupAskpassPath
    else
      found <- checkIfExecutableExists w systemdAskpassPath ;;
      if found : bool then ret systemdAskpassPath
      else
        fmt_Fprintln os_Stderr
          "Error: There's no askpass utility found. Please use option -P or -p to select an utility to enter a PIN-code and a passphrase." ;;
        os_Exit 6
  else ret (askpassPathParameter f).

(** The askpass callback behind a pseudo-terminal, 162-186. *)
Definition getPinFunc_askpass (f : Flags) (w : World) (askpassPath : string)
    (p : Prompt) : IO (bytes * option error) :=
  when (verboseFlag f)
    (fmt_Fprintf os_Stderr
       ("Running command " ++ dq ++ askpassPath ++ " " ++ title p ++ dq ++ nl)) ;;
  let cmd := exec_Command askpassPath [title p] in
  let cmd := mkCmd (cmd_Path cmd) (cmd_Args cmd) (cmd_Stdin cmd)
                   (Some Buffer) (cmd_Stderr cmd) in
  emit (EvPtyStart cmd) ;;
  match pty_Start w cmd with
  | inl err => ret ([], Some err)
  | inr (relayed, result) =>
      (* the deferred calls run last, in reverse order *)
      emit EvMakeRaw ;;
      when (match terminal_MakeRaw w with None => false | Some _ => true end)
        (fmt_Fprintf os_Stderr
           "The stdin is already closed, but we're waiting for reply from an askpass utility (this is OK, if the utility is not waiting any input from out stdin).") ;;
      emit EvGoCopyStdinToPty ;;
      fmt_Fprintf os_Stderr relayed ;;
      let r := strings_Trim result (String LF (String CR EmptyString)) in
      when (match terminal_MakeRaw w with None => true | Some _ => false end)
        (emit EvTerminalRestore) ;;
      emit EvPtyClose ;;
      ret (bytes_of_string r, None)
  end.

Definition main (f : Flags) (w : World) : IO unit :=
  when (helpFlag f) (usage ;; os_Exit 0) ;;
  when (negb (encryptFlag f) && negb (decryptFlag f))
    (fmt_Fprintln os_Stderr
       ("Error: Flag --encrypt or --decrypt is required." ++ nl) ;;
     code <- usage ;; os_Exit code) ;;
  emit (EvStep StMode) ;;
  askpassPath <- discover_askpass f w ;;
  data <- acquire_input os_Stderr f w ;;
  emit (if dummyDeviceFlag f then EvNewDummy else EvFindAny) ;;
  match (if dummyDeviceFlag f then cryptoWallet_NewDummy w
         else cryptoWallet_FindAny w) with
  | None => fmt_Fprintf os_Stderr ("No trezor devices found" ++ nl) ;; os_Exit 1
  | Some wallet =>
    (if negb (dummyDeviceFlag f) then
       if isTrezor wallet then emit (EvSetDefaultAskOnEncode true)
       else fmt_Fprintf os_Stderr ("No trezor devices found" ++ nl) ;; os_Exit 1
     else ret tt) ;;
    when (usePinentryFlag f) (emit EvNewPinentryClient) ;;
    defer (when (usePinentryFlag f) (emit EvPinentryClose))
     (let getPin := if usePinentryFlag f then getPinFunc_pinentry w
                    else getPinFunc_askpass f w askpassPath in
      emit EvSetGetPinFunc ;;
      emit EvSetGetConfirmFunc ;;
      when (verboseFlag f)
        (fmt_Fprintln os_Stderr
           "Setting Trezor device state to the initial state.") ;;
      emit EvReset ;;
      err <- run_device getPin getConfirmFunc (wallet_Reset wallet) ;;
      emit (EvResetReturned err) ;;
      match err with
      | Some _ =>
          fmt_Fprintf os_Stderr
            ("Cannot set the Trezor device state to the initial state" ++ nl) ;;
          os_Exit 2
      | None =>
        data <- (if decryptFlag f
                 then decrypt_block "internal error: len(dataHexed) is odd"
                        (hexFlag f) data
                 else ret data) ;;
        when (verboseFlag f)
          (fmt_Fprintln os_Stderr
             "Sent a request to a Trezor device (please confirm the operation if required).") ;;
        r <- (if encryptFlag f then
                emit (EvEncryptKey derivation_path data iv (keyNameParameter f)) ;;
                run_device getPin getConfirmFunc
                  (wallet_EncryptKey wallet derivation_path data iv
                     (keyNameParameter f))
              else
                emit (EvDecryptKey derivation_path data iv (keyNameParameter f)) ;;
                run_device getPin getConfirmFunc
                  (wallet_DecryptKey wallet derivation_path data iv
                     (keyNameParameter f))) ;;
        let (result, err) := r : bytes * option error in
        emit (EvKeyReturned result err) ;;
        emit (EvStep StValidate) ;;
        match err with
        | Some e => fmt_Fprintf os_Stderr ("Error: " ++ e) ;; os_Exit 3
        | None => print_result f result
        end
      end)
  end.

End Part002.

(** ** Observations on the events of a run *)

(** The payloads handed to the device's cipher operation. *)
Definition payload_of (e : Event) : list bytes :=
  match e with
  | EvCipherKeyValue _ _ _ data _ _ _ => [data]
  | EvEncryptKey _ data _ _ => [data]
  | EvDecryptKey _ data _ _ => [data]
  | _ => []
  end.
Definition payloads (t : list Event) : list bytes := flat_map payload_of t.

(** What the cipher-key-value operation gave back. *)
Definition returned_of (e : Event) : list (bytes * Z) :=
  match e with
  | EvCipherReturned result msgType => [(result, msgType)]
  | _ => []
  end.
Definition returned (t : list Event) : list (bytes * Z) := flat_map returned_of t.

(** The value printed by the last statement of [main]. *)
Definition output_of (e : Event) : list string :=
  match e with
  | EvOutput s => [s]
  | _ => []
  end.
Definition outputs (t : list Event) : list string := flat_map output_of t.

(** Reads of standard input and of files by the process itself. *)
Inductive Source := FromStdin | FromFile (path : string).
Definition read_of (e : Event) : list Source :=
  match e with
  | EvReadStdin => [FromStdin]
  | EvReadFile path => [FromFile path]
  | _ => []
  end.
Definition reads (t : list Event) : list Source := flat_map read_of t.

(** Calls into the device facade. *)
Definition device_call (e : Event) : bool :=
  match e with
  | EvTrezorNew | EvFindAny | EvNewDummy | EvSetDefaultAskOnEncode _
  | EvSetGetPinFunc | EvSetGetConfirmFunc | EvReset | EvResetReturned _
  | EvCipherKeyValue _ _ _ _ _ _ _ | EvCipherReturned _ _
  | EvEncryptKey _ _ _ _ | EvDecryptKey _ _ _ _ | EvKeyReturned _ _ => true
  | _ => false
  end.

Definition step_of (e : Event) : list Step :=
  match e with
  | EvStep s => [s]
  | EvSetGetPinFunc => [StBackend]
  | EvReset => [StReset]
  | EvCipherKeyValue _ _ _ _ _ _ _ => [StCipher]
  | EvEncryptKey _ _ _ _ => [StCipher]
  | EvDecryptKey _ _ _ _ => [StCipher]
  | EvOutput _ => [StOutput]
  | _ => []
  end.
Definition steps (t : list Event) : list Step := flat_map step_of t.

(** The order of the steps as the specification gives it, and as part_002
    takes them. *)
Definition spec_order : list Step :=
  [StMode; StBackend; StReset; StInput; StPad; StCipher; StValidate; StHex;
   StOutput].
Definition part_002_order : list Step :=
  [StMode; StInput; StBackend; StReset; StPad; StCipher; StValidate; StHex;
   StOutput].

(** The errors the device reset gave back. *)
Definition reset_error_of (e : Event) : list error :=
  match e with
  | EvResetReturned (Some err) => [err]
  | _ => []
  end.
Definition reset_errors (t : list Event) : list error :=
  flat_map reset_error_of t.

(** The two conditional steps: padding belongs to [--decrypt], hex encoding
    of the result to [--encrypt] with [--hex]. *)
Definition applicable (f : Flags) (s : Step) : bool :=
  match s with
  | StPad => decryptFlag f
  | StHex => encryptFlag f && hexFlag f
  | _ => true
  end.

(** A run in the order [order]: complete when it returns, a proper initial
    part when it stops; and a reset that fails is the last step the run
    takes, [upto_reset] being the steps up to it. *)
Definition ordered (f : Flags) (order upto_reset : list Step)
    (v : list Event) (r : Res unit) : Prop :=
  match r with
  | Val _ => steps v = filter (applicable f) order
  | Stop _ =>
      exists rest, rest <> [] /\ (steps v ++ rest)%list = filter (applicable f) order
  end
  /\ (reset_errors v = [] \/
      ((exists h, r = Stop h) /\ steps v = upto_reset)).

(** The input a run of part_001 or part_002 works on when its reads
    succeed. *)
Definition resolved_input (f : Flags) (w : World) : bytes :=
  let env := bytes_of_string (os_Getenv w "TREZOR_CIPHER_VALUE") in
  if (List.length env =? 0)%nat then
    if (inputValueFileParameter f =? "-")%string
    then fst (ioutil_ReadAll_Stdin w)
    else fst (ioutil_ReadFile w (inputValueFileParameter f))
  else env.

(** What the code hands to the device for an acquired [input]: under
    [--decrypt] the normalized hex text, otherwise the input itself. *)
Definition handed (f : Flags) (input payload : bytes) : Prop :=
  if decryptFlag f then decrypt_normalize (hexFlag f) input = Payload payload
  else payload = input.

(** The specification's [resolve_input(env_value, file_path_or_dash)]
    (section 4.1), as the choice it makes: the environment value when it is
    set and non-empty, else standard input for the sentinel ["-"], else the
    named file. *)
Inductive Chosen := UseEnv (value : bytes) | UseRead (src : Source).

Definition spec_resolve_input (env_value file_path_or_dash : string) : Chosen :=
  match env_value with
  | EmptyString =>
      if (file_path_or_dash =? "-")%string then UseRead FromStdin
      else UseRead (FromFile file_path_or_dash)
  | _ => UseEnv (bytes_of_string env_value)
  end.

(** What the world answers to a read in full. *)
Definition world_read (w : World) (src : Source) : bytes * option error :=
  match src with
  | FromStdin => ioutil_ReadAll_Stdin w
  | FromFile path => ioutil_ReadFile w path
  end.

(** The read the specification selects ends in an error. *)
Definition read_fails (f : Flags) (w : World) : bool :=
  match spec_resolve_input (os_Getenv w "TREZOR_CIPHER_VALUE")
                           (inputValueFileParameter f) with
  | UseEnv _ => false
  | UseRead src =>
      match snd (world_read w src) with Some _ => true | None => false end
  end.

(** The flag-dependent value that [fmt.Print] receives. *)
Definition printed (f : Flags) (result : bytes) : string :=
  string_of_bytes (if encryptFlag f && hexFlag f
                   then bytes_of_string (hex_EncodeToString result)
                   else result).

(** What a run shows of the status check. *)
Definition status_checked (f : Flags) (v : list Event) (r : Res unit) : Prop :=
  match returned v with
  | [] => outputs v = []
  | [(result, msgType)] =>
      if status_accepted msgType
      then r = Val tt /\ outputs v = [printed f result]
      else r = Stop (Panic (PanicUnexpectedMessage msgType
                              (string_of_bytes result)))
           /\ outputs v = []
  | _ => False
  end.

(** What a run shows of the parity check, for the panic text [msg] and the
    acquired [input]: the run ends in that panic only under [--decrypt] with
    a hex text of odd length, and under [--decrypt] with such a hex text the
    run stops without a payload reaching the device. *)
Definition parity_checked (msg : string) (f : Flags) (input : bytes)
    (v : list Event) (r : Res unit) : Prop :=
  (r = Stop (Panic (PanicString msg)) ->
   decryptFlag f = true /\
   Nat.odd (String.length (dataHexed_init (hexFlag f) input)) = true)
  /\ (decryptFlag f = true ->
      Nat.odd (String.length (dataHexed_init (hexFlag f) input)) = true ->
      payloads v = [] /\ exists h, r = Stop h).

(** The specification's reading of the askpass backends' post-processing:
    trailing newline characters trimmed; for the variant behind the
    pseudo-terminal, trailing carriage returns as well. *)
Definition spec_trim_simple (out : bytes) : bytes :=
  bytes_of_string (strings_TrimRight (string_of_bytes out) nl).
Definition spec_trim_pty (out : string) : bytes :=
  bytes_of_string (strings_TrimRight out (String LF (String CR EmptyString))).

(** Events that are no step of [main]: the usage text, writes to standard
    error, reads of the environment, probes of the file system, the prompt
    programs and the pseudo-terminal. *)
Definition quiet_event (e : Event) : bool :=
  match e with
  | EvUsage | EvWrite os_Stderr _ | EvStat _
  | EvNewPinentryClient | EvPinentrySet _ _ | EvPinentryGetPin | EvPinentryClose
  | EvCmdOutput _ | EvPtyStart _ | EvPtyClose | EvMakeRaw | EvTerminalRestore
  | EvGoCopyStdinToPty | EvGetenv _ => true
  | _ => false
  end.

(** The events of a prompt callback: the quiet ones and, in part_001, the
    progress line on standard output. *)
Definition callback_event (e : Event) : bool :=
  match e with
  | EvWrite os_Stdout _ => true
  | _ => quiet_event e
  end.

Definition hidden_only (hidden : Event -> bool) (t : list Event) : Prop :=
  Forall (fun e => hidden e = true) t.
Definition quiet : list Event -> Prop := hidden_only quiet_event.
Definition callback_only : list Event -> Prop := hidden_only callback_event.

(** The events left when the [hidden] ones are taken away. *)
Definition visible (hidden : Event -> bool) (t : list Event) : list Event :=
  filter (fun e => negb (hidden e)) t.

(** A property of a computation, stated on its visible events and on how
    it ended. *)
Definition wp (hidden : Event -> bool) {A} (m : IO A)
    (Q : list Event -> Res A -> Prop) : Prop :=
  Q (visible hidden (events m)) (outcome m).

(** Writes to standard output, the result included. *)
Definition stdout_of (e : Event) : list string :=
  match e with
  | EvWrite os_Stdout s => [s]
  | EvOutput s => [s]
  | _ => []
  end.
Definition stdout_writes (t : list Event) : list string := flat_map stdout_of t.

(** ** Further observations: lookups, endings, device calls *)

(** The value of a lower-case hex digit, [fromHexChar] of encoding/hex on
    ['0'..'9'] and ['a'..'f']: the inverse of [hextable_at]. *)
Definition nibble_of (c : ascii) : N :=
  let n := N_of_ascii c in if (n <? 58)%N then (n - 48)%N else (n - 87)%N.

(** The names given to [os.Stat] and to [os.Getenv]. *)
Definition stat_of (e : Event) : list string :=
  match e with
  | EvStat name => [name]
  | _ => []
  end.
Definition stats (t : list Event) : list string := flat_map stat_of t.

Definition getenv_of (e : Event) : list string :=
  match e with
  | EvGetenv name => [name]
  | _ => []
  end.
Definition getenvs (t : list Event) : list string := flat_map getenv_of t.

(** The elements of [l] up to and including the first one with [p]: what a
    [for] loop that returns at the first hit goes through. *)
Fixpoint upto_first {A} (p : A -> bool) (l : list A) : list A :=
  match l with
  | [] => []
  | x :: l' => if p x then [x] else x :: upto_first p l'
  end.

(** [path.Join(dir, name)] for the entries of [PATH], in their order. *)
Definition candidates (w : World) (name : string) : list string :=
  map (fun dir => path_Join w dir name)
      (strings_Split (os_Getenv w "PATH") ":").

(** A non-empty name that does not start with a slash. *)
Definition is_relative (name : string) : bool :=
  match name with
  | EmptyString => false
  | String c _ => negb (Ascii.eqb c "/")
  end.

(** No byte of [s] is [sep]. *)
Fixpoint free_of (sep : ascii) (s : string) : bool :=
  match s with
  | EmptyString => true
  | String c s' => negb (Ascii.eqb c sep) && free_of sep s'
  end.

(** The two diagnostics of the flag checks, without the line feed that
    [fmt.Fprintln] appends. *)
Definition no_mode_message : string :=
  "Error: Flag --encrypt or --decrypt is required.".
Definition no_askpass_message : string :=
  "Error: There's no askpass utility found. Please use option -P or -p to select an utility to enter a PIN-code and a passphrase.".

(** What [EncryptKey] or [DecryptKey] gave back. *)
Definition key_returned_of (e : Event) : list (bytes * option error) :=
  match e with
  | EvKeyReturned result err => [(result, err)]
  | _ => []
  end.
Definition key_returned (t : list Event) : list (bytes * option error) :=
  flat_map key_returned_of t.

(** The wallet part_002 goes on with: the dummy under [--dummy], else the
    wallet found if it is a Trezor. *)
Definition usable_wallet (f : Flags) (w : World) : option Wallet :=
  match (if dummyDeviceFlag f then cryptoWallet_NewDummy w
         else cryptoWallet_FindAny w) with
  | Some wallet =>
      if negb (dummyDeviceFlag f) && negb (isTrezor wallet) then None
      else Some wallet
  | None => None
  end.

(** What the exit code of a run of part_002 tells. *)
Definition exit_cause (f : Flags) (w : World) (v : list Event) (code : Z)
  : Prop :=
  match code with
  | 0%Z => helpFlag f = true
  | 22%Z => helpFlag f = false /\ encryptFlag f = false /\ decryptFlag f = false
  | 6%Z => outcome (Part002.discover_askpass f w) = Stop (Exit 6)
  | (-1)%Z => read_fails f w = true
  | 1%Z => usable_wallet f w = None
  | 2%Z => reset_errors v <> []
  | 3%Z => exists result e, key_returned v = [(result, Some e)]
  | _ => False
  end.

(** How a run of part_002 ends: it returns after printing the result the
    device gave without an error; or it exits, with a code that has its
    cause; or it panics on the parity check.  Without a usable wallet the
    run stops before the prompt backend; a reset that fails gives exit code
    2 before any payload, an error of the cipher operation exit code 3. *)
Definition Part002_ends (f : Flags) (w : World) (v : list Event)
    (r : Res unit) : Prop :=
  match r with
  | Val _ =>
      exists result,
        key_returned v = [(result, None)] /\ outputs v = [printed f result]
  | Stop (Exit code) => outputs v = [] /\ exit_cause f w v code
  | Stop (Panic pv) =>
      outputs v = [] /\ decryptFlag f = true /\
      pv = PanicString "internal error: len(dataHexed) is odd"
  | Stop OutOfFuel => False
  end
  /\ (usable_wallet f w = None ->
      (exists h, r = Stop h) /\
      Forall (fun s => s = StMode \/ s = StInput) (steps v))
  /\ (reset_errors v <> [] -> r = Stop (Exit 2) /\ payloads v = [])
  /\ (forall result e,
        key_returned v = [(result, Some e)] -> r = Stop (Exit 3)).

(** Standard output holds the result and nothing else: one write when the
    run returns, none when it stops. *)
Definition stdout_is_result (v : list Event) (r : Res unit) : Prop :=
  stdout_writes v = outputs v
  /\ match r with
     | Val _ => exists s, outputs v = [s]
     | Stop _ => outputs v = []
     end.

(** part_001 goes on only with a wallet that is a Trezor. *)
Definition trezor_found (w : World) : bool :=
  match cryptoWallet_FindAny w with
  | Some wallet => isTrezor wallet
  | None => false
  end.

(** How a run of part_001 ends: by returning, by [os.Exit] for the flag
    checks and a failed read, by [panic] for everything about the device. *)
Definition Part001_ends (f : Flags) (w : World) (v : list Event)
    (r : Res unit) : Prop :=
  match r with
  | Val _ =>
      exists result msgType,
        returned v = [(result, msgType)] /\ status_accepted msgType = true /\
        outputs v = [printed f result]
  | Stop (Exit code) =>
      outputs v = [] /\ payloads v = [] /\
      match code with
      | 0%Z => helpFlag f = true
      | 22%Z =>
          helpFlag f = false /\ encryptFlag f = false /\ decryptFlag f = false
      | (-1)%Z => read_fails f w = true
      | _ => False
      end
  | Stop (Panic (PanicString s)) =>
      outputs v = [] /\ payloads v = [] /\
      ((s = "No trezor devices found" /\ trezor_found w = false /\
        steps v = [StMode])
       \/ (s = "len(dataHexed) is odd" /\ decryptFlag f = true))
  | Stop (Panic (PanicError s)) =>
      outputs v = [] /\ payloads v = [] /\
      s = "Cannot set the Trezor device state to the initial state" /\
      reset_errors v <> []
  | Stop (Panic (PanicUnexpectedMessage msgType result)) =>
      outputs v = [] /\
      exists data, returned v = [(data, msgType)] /\
                   status_accepted msgType = false /\
                   result = string_of_bytes data
  | Stop OutOfFuel => False
  end.

(** No event is hidden: the visible events are all the events. *)
Definition nothing_hidden (_ : Event) : bool := false.

(** The effects main.go has at all. *)
Definition MainGo_effect (e : Event) : bool :=
  match e with
  | EvStep _ | EvUsage | EvWrite _ _ | EvOutput _ | EvReadStdin | EvTrezorNew
  | EvCipherKeyValue _ _ _ _ _ _ _ | EvCipherReturned _ _ => true
  | _ => false
  end.

(** How a run of main.go ends. *)
Definition MainGo_ends (f : Flags) (w : World) (v : list Event)
    (r : Res unit) : Prop :=
  Forall (fun e => MainGo_effect e = true) v /\
  match r with
  | Val _ =>
      exists result msgType,
        returned v = [(result, msgType)] /\ status_accepted msgType = true /\
        outputs v = [printed f result]
  | Stop (Exit code) =>
      outputs v = [] /\ payloads v = [] /\
      match code with
      | 22%Z =>
          helpFlag f = true \/
          (encryptFlag f = false /\ decryptFlag f = false)
      | (-1)%Z => snd (ioutil_ReadAll_Stdin w) <> None
      | _ => False
      end
  | Stop (Panic (PanicString s)) =>
      outputs v = [] /\ payloads v = [] /\
      s = "len(dataHexed) is odd" /\ decryptFlag f = true
  | Stop (Panic (PanicError _)) => False
  | Stop (Panic (PanicUnexpectedMessage msgType result)) =>
      outputs v = [] /\
      exists data, returned v = [(data, msgType)] /\
                   status_accepted msgType = false /\
                   result = string_of_bytes data
  | Stop OutOfFuel => False
  end.

(** The steps of main.go: no prompt backend of its own, no reset. *)
Definition main_go_order : list Step :=
  [StMode; StInput; StPad; StCipher; StValidate; StHex; StOutput].

(** A run in the order [order]: all of it when the run returns, a proper
    initial part when it stops. *)
Definition follows (f : Flags) (order : list Step) (v : list Event)
    (r : Res unit) : Prop :=
  match r with
  | Val _ => steps v = filter (applicable f) order
  | Stop _ =>
      exists rest, rest <> [] /\ (steps v ++ rest)%list = filter (applicable f) order
  end.

(** The arguments of a cipher operation; [call_ask] holds [askOnEncrypt]
    and [askOnDecrypt] where the operation takes them. *)
Record CipherCall := mkCipherCall {
  call_path : string;
  call_encrypt : bool;
  call_keyName : string;
  call_data : bytes;
  call_iv : bytes;
  call_ask : option (bool * bool)
}.

Definition cipher_call_of (e : Event) : list CipherCall :=
  match e with
  | EvCipherKeyValue path isEncrypt keyName data iv askOnEncrypt askOnDecrypt =>
      [mkCipherCall path isEncrypt keyName data iv
         (Some (askOnEncrypt, askOnDecrypt))]
  | EvEncryptKey path data iv keyName =>
      [mkCipherCall path true keyName data iv None]
  | EvDecryptKey path data iv keyName =>
      [mkCipherCall path false keyName data iv None]
  | _ => []
  end.
Definition cipher_calls (t : list Event) : list CipherCall :=
  flat_map cipher_call_of t.

(** At most one cipher operation, and what it is called with. *)
Definition cipher_call_shape (f : Flags) (path : string) (iv input : bytes)
    (ask : option (bool * bool)) (calls : list CipherCall) : Prop :=
  match calls with
  | [] => True
  | [c] =>
      call_path c = path /\ call_encrypt c = encryptFlag f /\
      call_keyName c = keyNameParameter f /\ call_iv c = iv /\
      call_ask c = ask /\ handed f input (call_data c)
  | _ => False
  end.

(** The life of the pinentry client: [pinentry.NewPinentryClient()] and the
    deferred [p.Close()]. *)
Inductive ClientOp := Opened | Closed.

Definition client_op_of (e : Event) : list ClientOp :=
  match e with
  | EvNewPinentryClient => [Opened]
  | EvPinentryClose => [Closed]
  | _ => []
  end.
Definition client_ops (t : list Event) : list ClientOp :=
  flat_map client_op_of t.

(** The events of the callbacks, the two of the client's life apart. *)
Definition backstage_event (e : Event) : bool :=
  match e with
  | EvNewPinentryClient | EvPinentryClose => false
  | _ => callback_event e
  end.

(** The client is closed when [main] returns or panics after it was
    opened, and left open when the process leaves by [os.Exit] after
    that: in part_001 for a failed read, in part_002 for a failed reset and
    for an error of the cipher operation. *)
Definition Part001_client (f : Flags) (v : list Event) (r : Res unit) : Prop :=
  client_ops v =
  match r with
  | Stop (Exit code) =>
      if usePinentryFlag f && (code =? -1)%Z then [Opened] else []
  | Stop (Panic (PanicString s)) =>
      if usePinentryFlag f && negb (s =? "No trezor devices found")%string
      then [Opened; Closed] else []
  | _ => if usePinentryFlag f then [Opened; Closed] else []
  end.

Definition Part002_client (f : Flags) (v : list Event) (r : Res unit) : Prop :=
  client_ops v =
  match r with
  | Stop (Exit code) =>
      if usePinentryFlag f && ((code =? 2)%Z || (code =? 3)%Z)
      then [Opened] else []
  | _ => if usePinentryFlag f then [Opened; Closed] else []
  end.

(** The events of the askpass programs and those of pinentry. *)
Definition askpass_event (e : Event) : bool :=
  match e with
  | EvCmdOutput _ | EvPtyStart _ | EvPtyClose | EvMakeRaw | EvTerminalRestore
  | EvGoCopyStdinToPty => true
  | _ => false
  end.

Definition pinentry_event (e : Event) : bool :=
  match e with
  | EvNewPinentryClient | EvPinentrySet _ _ | EvPinentryGetPin
  | EvPinentryClose => true
  | _ => false
  end.

(** Every event but those with [shown]. *)
Definition all_but (shown : Event -> bool) (e : Event) : bool := negb (shown e).

(** The calls that find the device and set it up, the reset included. *)
Definition setup_of (e : Event) : list Event :=
  match e with
  | EvFindAny | EvNewDummy | EvSetDefaultAskOnEncode _ | EvSetGetPinFunc
  | EvSetGetConfirmFunc | EvReset => [e]
  | _ => []
  end.
Definition setup (t : list Event) : list Event := flat_map setup_of t.

(** The setup of part_002, for the dummy and for a real device. *)
Definition Part002_setup (f : Flags) : list Event :=
  if dummyDeviceFlag f
  then [EvNewDummy; EvSetGetPinFunc; EvSetGetConfirmFunc; EvReset]
  else [EvFindAny; EvSetDefaultAskOnEncode true; EvSetGetPinFunc;
        EvSetGetConfirmFunc; EvReset].

Definition Part001_setup : list Event :=
  [EvFindAny; EvSetGetPinFunc; EvSetGetConfirmFunc; EvReset].

(** A run goes through [expected] from its start, and through all of it
    before a payload reaches the device. *)
Definition sets_up (expected : list Event) (v : list Event) : Prop :=
  exists rest,
    (setup v ++ rest)%list = expected /\ (payloads v <> [] -> rest = []).

(** ** Sample flags, devices and worlds *)

(** The flags as [getopt] leaves them when the command line gives none
    (part_002's defaults; part_001 has ["/lib/cryptsetup/askpass"] for
    [--askpass-path]). *)
Definition default_flags : Flags :=
  mkFlags false false false false false false "unnamed key" EmptyString false "-".

Definition with_mode (encrypt decrypt hex : bool) (f : Flags) : Flags :=
  mkFlags (helpFlag f) encrypt decrypt (dummyDeviceFlag f) hex (verboseFlag f)
          (keyNameParameter f) (askpassPathParameter f) (usePinentryFlag f)
          (inputValueFileParameter f).

Definition with_pinentry (f : Flags) : Flags :=
  mkFlags (helpFlag f) (encryptFlag f) (decryptFlag f) (dummyDeviceFlag f)
          (hexFlag f) (verboseFlag f) (keyNameParameter f)
          (askpassPathParameter f) true (inputValueFileParameter f).

Definition with_askpass (path : string) (f : Flags) : Flags :=
  mkFlags (helpFlag f) (encryptFlag f) (decryptFlag f) (dummyDeviceFlag f)
          (hexFlag f) (verboseFlag f) (keyNameParameter f)
          path (usePinentryFlag f) (inputValueFileParameter f).

(** A device that asks for nothing and hands the payload back, with the
    status [status]. *)
Definition echo_wallet (status : Z) : Wallet :=
  mkWallet true (Answer None)
    (fun _ _ _ data _ _ _ => Answer (data, status))
    (fun _ data _ _ => Answer (data, None))
    (fun _ data _ _ => Answer (data, None)).

(** A machine with no askpass program, [stdin] on standard input and one
    device answering with [status]; an askpass program, were one given,
    prints ["1234"] and a line feed. *)
Definition sample_world (stdin : string) (status : Z) : World :=
  mkWorld
    (fun name => if (name =? "PATH")%string then "/usr/bin:/bin" else EmptyString)
    (fun _ => Some "no such file or directory")
    (fun dir name => dir ++ "/" ++ name)
    (bytes_of_string stdin, None)
    (fun _ => ([], Some "no such file or directory"))
    (fun _ _ _ data _ _ _ => (data, status))
    (Some (echo_wallet status))
    (Some (echo_wallet status))
    (fun _ => (bytes_of_string "1234", None))
    (fun _ => (bytes_of_string ("1234" ++ nl), None))
    (fun _ => inr (EmptyString, nl ++ "1234" ++ String CR nl))
    None.

(** The same machine with an askpass program at the cryptsetup path. *)
Definition askpass_world (stdin : string) (status : Z) : World :=
  let w := sample_world stdin status in
  mkWorld (os_Getenv w)
    (fun name => if (name =? "/lib/cryptsetup/askpass")%string then None
                 else os_Stat w name)
    (path_Join w) (ioutil_ReadAll_Stdin w) (ioutil_ReadFile w)
    (trezor_CipherKeyValue w) (cryptoWallet_FindAny w)
    (cryptoWallet_NewDummy w) (pinentry_GetPin w) (cmd_Output w)
    (pty_Start w) (terminal_MakeRaw w).

(** The sample prompt of the device. *)
Definition pin_prompt : Prompt := mkPrompt "PIN" "Enter the PIN" "OK" "Cancel".

(** ** Strings: length, append, conversions *)

Lemma string_length_app (s t : string) :
  String.length (s ++ t) = String.length s + String.length t.
Proof. induction s as [|c s IH]; simpl; [reflexivity | now rewrite IH]. Qed.

Lemma string_app_assoc (s t u : string) : (s ++ t) ++ u = s ++ (t ++ u).
Proof. induction s as [|c s IH]; simpl; [reflexivity | now rewrite IH]. Qed.

Lemma string_app_empty_r (s : string) : s ++ EmptyString = s.
Proof. induction s as [|c s IH]; simpl; [reflexivity | now rewrite IH]. Qed.

Lemma bytes_of_string_length (s : string) :
  List.length (bytes_of_string s) = String.length s.
Proof.
  unfold bytes_of_string, list_byte_of_string.
  rewrite length_map. induction s as [|c s IH]; simpl; congruence.
Qed.

Lemma bytes_of_string_app (s t : string) :
  bytes_of_string (s ++ t) = (bytes_of_string s ++ bytes_of_string t)%list.
Proof.
  unfold bytes_of_string, list_byte_of_string.
  rewrite <- map_app. f_equal.
  induction s as [|c s IH]; simpl; [reflexivity | now rewrite IH].
Qed.

Lemma bytes_of_string_of_bytes (b : bytes) :
  bytes_of_string (string_of_bytes b) = b.
Proof. apply list_byte_of_string_of_list_byte. Qed.

Lemma string_of_bytes_length (b : bytes) :
  String.length (string_of_bytes b) = List.length b.
Proof.
  rewrite <- (bytes_of_string_of_bytes b) at 2.
  now rewrite bytes_of_string_length.
Qed.

Lemma zero_pairs_length (k : nat) : String.length (zero_pairs k) = 2 * k.
Proof. induction k as [|k IH]; simpl; [reflexivity | rewrite IH; lia]. Qed.

(** ** encoding/hex: length and alphabet *)

Lemma hex_EncodeToString_length (src : bytes) :
  String.length (hex_EncodeToString src) = 2 * List.length src.
Proof. induction src as [|v rest IH]; simpl; [reflexivity | rewrite IH; lia]. Qed.

Lemma hextable_hi_lower_hex (v : byte) :
  is_lower_hex (hextable_at (N.shiftr (Byte.to_N v) 4)) = true.
Proof. destruct v; vm_compute; reflexivity. Qed.

Lemma hextable_lo_lower_hex (v : byte) :
  is_lower_hex (hextable_at (N.land (Byte.to_N v) 15)) = true.
Proof. destruct v; vm_compute; reflexivity. Qed.

Lemma hex_EncodeToString_lower_hex (src : bytes) :
  Forall (fun b => is_lower_hex_byte b = true)
         (bytes_of_string (hex_EncodeToString src)).
Proof.
  induction src as [|v rest IH]; simpl; [constructor|].
  unfold bytes_of_string, list_byte_of_string in *. simpl.
  constructor; [|constructor; [|exact IH]];
    unfold is_lower_hex_byte; rewrite ascii_of_byte_of_ascii.
  - apply hextable_hi_lower_hex.
  - apply hextable_lo_lower_hex.
Qed.

(** ** The padding loop *)

Lemma pad_chars_zero (n : nat) : pad_chars n = 0 <-> n mod 32 = 0.
Proof.
  unfold pad_chars. pose proof (Nat.mod_upper_bound n 32).
  destruct (Nat.eq_dec (n mod 32) 0) as [E|E].
  - rewrite E. simpl. tauto.
  - rewrite Nat.mod_small by lia. lia.
Qed.

Lemma mod_32_mod_2 (n : nat) : (n mod 32) mod 2 = n mod 2.
Proof.
  change 32 with (2 * 16). rewrite Nat.Div0.mod_mul_r.
  rewrite (Nat.mul_comm 2), Nat.Div0.mod_add.
  apply Nat.Div0.mod_mod.
Qed.

(** Case analysis on a remainder below 32. *)
Ltac cases_below_32 r :=
  do 32 (destruct r as [|r]; [cbn in *; try congruence; try lia|]);
  exfalso; lia.

Lemma pad_chars_step (n : nat) :
  n mod 2 = 0 -> n mod 32 <> 0 -> pad_chars n = 2 + pad_chars (n + 2).
Proof.
  intros Heven Hne. unfold pad_chars.
  rewrite <- mod_32_mod_2 in Heven.
  rewrite <- (Nat.Div0.add_mod_idemp_l n 2 32).
  pose proof (Nat.mod_upper_bound n 32 ltac:(lia)) as Hlt.
  remember (n mod 32) as r eqn:Hr. clear Hr n.
  cases_below_32 r.
Qed.

Lemma pad_chars_even (n : nat) : n mod 2 = 0 -> (pad_chars n) mod 2 = 0.
Proof.
  intros Heven. unfold pad_chars.
  rewrite <- mod_32_mod_2 in Heven.
  pose proof (Nat.mod_upper_bound n 32 ltac:(lia)) as Hlt.
  remember (n mod 32) as r eqn:Hr. clear Hr n.
  cases_below_32 r.
Qed.

Lemma odd_not_mult_32 (n : nat) : n mod 2 = 1 -> n mod 32 <> 0.
Proof. intros Hodd E. rewrite <- mod_32_mod_2, E in Hodd. discriminate. Qed.

Lemma pad_chars_bound (n : nat) : pad_chars n < 32.
Proof. unfold pad_chars. apply Nat.mod_upper_bound. lia. Qed.

(** An even-length text leaves the loop after [pad_chars / 2] rounds, with
    that many ["00"] appended, whatever fuel is left beyond that. *)
Lemma pad_loop_spec (k : nat) : forall (s : string) (fuel : nat),
  String.length s mod 2 = 0 ->
  pad_chars (String.length s) = 2 * k ->
  k < fuel ->
  pad_loop fuel s = Some (s ++ zero_pairs k).
Proof.
  induction k as [|k IH]; intros s fuel Heven Hpad Hfuel.
  - destruct fuel as [|fuel]; [lia|]. cbn [pad_loop zero_pairs].
    apply (proj1 (pad_chars_zero _)) in Hpad. rewrite Hpad. cbn.
    now rewrite string_app_empty_r.
  - destruct fuel as [|fuel]; [lia|].
    assert (Hne : String.length s mod 32 <> 0).
    { intro E. apply (proj2 (pad_chars_zero _)) in E. lia. }
    cbn [pad_loop]. apply Nat.eqb_neq in Hne. rewrite Hne. cbn [negb].
    apply Nat.eqb_neq in Hne.
    rewrite (IH (s ++ "00") fuel).
    + rewrite string_app_assoc. reflexivity.
    + rewrite string_length_app. cbn [String.length].
      rewrite Nat.Div0.add_mod, Heven. reflexivity.
    + rewrite string_length_app. cbn [String.length].
      pose proof (pad_chars_step _ Heven Hne). lia.
    + lia.
Qed.

(** An odd-length text never leaves the loop: the parity check in front of
    it is what makes the loop stop. *)
Lemma pad_loop_odd (fuel : nat) : forall (s : string),
  String.length s mod 2 = 1 -> pad_loop fuel s = None.
Proof.
  induction fuel as [|fuel IH]; intros s Hodd; [reflexivity|].
  cbn [pad_loop].
  pose proof (odd_not_mult_32 _ Hodd) as Hne.
  apply Nat.eqb_neq in Hne. rewrite Hne. cbn [negb].
  apply IH. rewrite string_length_app. cbn [String.length].
  rewrite Nat.Div0.add_mod, Hodd. reflexivity.
Qed.

Lemma pad_loop_fuel_enough (s : string) (fuel : nat) :
  String.length s mod 2 = 0 -> pad_fuel <= fuel ->
  pad_loop fuel s = pad_loop pad_fuel s /\
  pad_loop pad_fuel s =
    Some (s ++ zero_pairs (pad_chars (String.length s) / 2)).
Proof.
  intros Heven Hfuel.
  pose proof (pad_chars_bound (String.length s)) as Hb.
  pose proof (pad_chars_even _ Heven) as He.
  assert (Hk : pad_chars (String.length s)
               = 2 * (pad_chars (String.length s) / 2)).
  { pose proof (Nat.div_mod_eq (pad_chars (String.length s)) 2). lia. }
  assert (Hlt : pad_chars (String.length s) / 2 < pad_fuel).
  { unfold pad_fuel. apply Nat.Div0.div_lt_upper_bound. lia. }
  rewrite (pad_loop_spec _ s fuel Heven Hk) by lia.
  rewrite (pad_loop_spec _ s pad_fuel Heven Hk) by lia.
  split; reflexivity.
Qed.

(** The block, case by case. *)
Lemma decrypt_normalize_eq (hexFlag : bool) (data : bytes) :
  let dataHexed := dataHexed_init hexFlag data in
  decrypt_normalize hexFlag data =
    if Nat.even (String.length dataHexed)
    then Payload (bytes_of_string
                    (dataHexed ++
                     zero_pairs (pad_chars (String.length dataHexed) / 2)))
    else OddLength.
Proof.
  cbv zeta. unfold decrypt_normalize.
  set (s := dataHexed_init hexFlag data).
  destruct (Nat.even (String.length s)) eqn:E.
  - assert (Heven : String.length s mod 2 = 0).
    { apply Nat.even_spec in E. destruct E as [m Hm]. rewrite Hm.
      rewrite Nat.mul_comm. apply Nat.Div0.mod_mul. }
    rewrite Heven. cbn [Nat.eqb negb].
    destruct (pad_loop_fuel_enough s pad_fuel Heven (le_n _)) as [_ ->].
    reflexivity.
  - assert (Hodd : String.length s mod 2 = 1).
    { rewrite <- Nat.negb_odd in E. apply negb_false_iff in E.
      apply Nat.odd_spec in E. destruct E as [m Hm]. rewrite Hm.
      rewrite Nat.add_comm, Nat.mul_comm, Nat.Div0.mod_add. reflexivity. }
    rewrite Hodd. reflexivity.
Qed.

Lemma padded_length_mod_32 (n : nat) :
  n mod 2 = 0 -> (n + 2 * (pad_chars n / 2)) mod 32 = 0.
Proof.
  intros Heven. unfold pad_chars.
  rewrite <- mod_32_mod_2 in Heven.
  rewrite <- Nat.Div0.add_mod_idemp_l.
  pose proof (Nat.mod_upper_bound n 32 ltac:(lia)) as Hlt.
  remember (n mod 32) as r eqn:Hr. clear Hr n.
  cases_below_32 r.
Qed.

(** ** The monad *)

Lemma events_bind {A B} (m : IO A) (k : A -> IO B) :
  events (bind m k) =
  (events m ++ match outcome m with
               | Val a => events (k a)
               | Stop _ => []
               end)%list.
Proof.
  destruct m as [t [a|h]]; cbn.
  - destruct (k a); reflexivity.
  - now rewrite app_nil_r.
Qed.

Lemma outcome_bind {A B} (m : IO A) (k : A -> IO B) :
  outcome (bind m k) =
  match outcome m with
  | Val a => outcome (k a)
  | Stop h => Stop h
  end.
Proof. destruct m as [t [a|h]]; cbn; [destruct (k a)|]; reflexivity. Qed.

Lemma quiet_callback_only (t : list Event) : quiet t -> callback_only t.
Proof.
  apply Forall_impl. intros e He. destruct e; try exact He.
  destruct h; cbn in *; congruence.
Qed.

Lemma hidden_only_bind hidden {A B} (m : IO A) (k : A -> IO B) :
  hidden_only hidden (events m) ->
  (forall a, hidden_only hidden (events (k a))) ->
  hidden_only hidden (events (bind m k)).
Proof.
  unfold hidden_only. intros Hm Hk. rewrite events_bind.
  apply Forall_app. split; [exact Hm|].
  destruct (outcome m); [apply Hk | constructor].
Qed.

Lemma callback_only_bind {A B} (m : IO A) (k : A -> IO B) :
  callback_only (events m) -> (forall a, callback_only (events (k a))) ->
  callback_only (events (bind m k)).
Proof. apply hidden_only_bind. Qed.

Lemma quiet_bind {A B} (m : IO A) (k : A -> IO B) :
  quiet (events m) -> (forall a, quiet (events (k a))) ->
  quiet (events (bind m k)).
Proof. apply hidden_only_bind. Qed.

(** ** The callbacks and the device *)

Lemma run_device_callback_only {R} getPin getConfirm (d : Device R) :
  (forall p, callback_only (events (getPin p))) ->
  (forall p, callback_only (events (getConfirm p))) ->
  callback_only (events (run_device getPin getConfirm d)).
Proof.
  intros Hpin Hconfirm.
  induction d as [r|p k IH|p k IH]; cbn [run_device].
  - constructor.
  - apply callback_only_bind; [apply Hpin | exact IH].
  - apply callback_only_bind; [apply Hconfirm | exact IH].
Qed.

Lemma run_device_quiet {R} getPin getConfirm (d : Device R) :
  (forall p, quiet (events (getPin p))) ->
  (forall p, quiet (events (getConfirm p))) ->
  quiet (events (run_device getPin getConfirm d)).
Proof.
  intros Hpin Hconfirm.
  induction d as [r|p k IH|p k IH]; cbn [run_device].
  - constructor.
  - apply quiet_bind; [apply Hpin | exact IH].
  - apply quiet_bind; [apply Hconfirm | exact IH].
Qed.

Lemma getConfirmFunc_quiet (p : Prompt) : quiet (events (getConfirmFunc p)).
Proof. constructor. Qed.

Lemma getPinFunc_pinentry_quiet (w : World) (p : Prompt) :
  quiet (events (getPinFunc_pinentry w p)).
Proof. repeat constructor. Qed.

Lemma Part001_getPinFunc_askpass_callback_only f w p :
  callback_only (events (Part001.getPinFunc_askpass f w p)).
Proof.
  unfold Part001.getPinFunc_askpass.
  destruct (verboseFlag f); repeat constructor.
Qed.

Lemma Part001_getPinFunc_askpass_quiet f w p :
  verboseFlag f = false -> quiet (events (Part001.getPinFunc_askpass f w p)).
Proof.
  intros Hv. unfold Part001.getPinFunc_askpass. rewrite Hv.
  repeat constructor.
Qed.

Lemma Part002_getPinFunc_askpass_quiet f w path p :
  quiet (events (Part002.getPinFunc_askpass f w path p)).
Proof.
  unfold Part002.getPinFunc_askpass.
  destruct (verboseFlag f); cbn;
    destruct (pty_Start w _) as [err|[relayed result]]; cbn;
    destruct (terminal_MakeRaw w); repeat constructor.
Qed.

(** ** Askpass discovery *)

Lemma stat_in_dirs_quiet w name dirs :
  quiet (events (Part002.stat_in_dirs w name dirs)).
Proof.
  induction dirs as [|dir dirs IH]; [constructor|].
  cbn [Part002.stat_in_dirs]. apply quiet_bind; [repeat constructor|].
  intros _. destruct (Part002.stat_ok w _); [constructor | exact IH].
Qed.

Lemma stat_in_dirs_returns w name dirs :
  exists found, outcome (Part002.stat_in_dirs w name dirs) = Val found.
Proof.
  induction dirs as [|dir dirs IH]; [eexists; reflexivity|].
  cbn [Part002.stat_in_dirs]. rewrite outcome_bind. cbn.
  destruct (Part002.stat_ok w _); [eexists; reflexivity | exact IH].
Qed.

Lemma checkIfExecutableExists_quiet w name :
  quiet (events (Part002.checkIfExecutableExists w name)).
Proof.
  destruct name as [|c name]; [constructor|].
  cbn [Part002.checkIfExecutableExists].
  destruct (Ascii.eqb c "/"); [repeat constructor|].
  apply quiet_bind; [repeat constructor|]. intros _. apply stat_in_dirs_quiet.
Qed.

Lemma checkIfExecutableExists_returns w name :
  exists found, outcome (Part002.checkIfExecutableExists w name) = Val found.
Proof.
  destruct name as [|c name]; [eexists; reflexivity|].
  cbn [Part002.checkIfExecutableExists].
  destruct (Ascii.eqb c "/"); [eexists; reflexivity|].
  rewrite outcome_bind. cbn. apply stat_in_dirs_returns.
Qed.

(** Discovery ends with a path, or with the diagnostic and exit code 6. *)
Lemma discover_askpass_cases f w :
  quiet (events (Part002.discover_askpass f w)) /\
  (outcome (Part002.discover_askpass f w) = Stop (Exit 6) \/
   exists path, outcome (Part002.discover_askpass f w) = Val path).
Proof.
  unfold Part002.discover_askpass.
  destruct (askpassPathParameter f =? EmptyString)%string;
    [|split; [constructor | right; eexists; reflexivity]].
  pose proof (checkIfExecutableExists_quiet w Part002.cryptsetupAskpassPath) as H1.
  pose proof (checkIfExecutableExists_quiet w Part002.systemdAskpassPath) as H2.
  destruct (checkIfExecutableExists_returns w Part002.cryptsetupAskpassPath)
    as [b1 E1].
  destruct (checkIfExecutableExists_returns w Part002.systemdAskpassPath)
    as [b2 E2].
  split.
  - apply quiet_bind; [exact H1|]. intros [|]; [constructor|].
    apply quiet_bind; [exact H2|]. intros [|]; repeat constructor.
  - rewrite outcome_bind, E1. destruct b1; [right; eexists; reflexivity|].
    rewrite outcome_bind, E2. destruct b2; [right; eexists; reflexivity|].
    left. reflexivity.
Qed.

(** The callbacks return: neither of them leaves the process. *)
Lemma run_device_returns {R} getPin getConfirm (d : Device R) :
  (forall p, exists a, outcome (getPin p) = Val a) ->
  (forall p, exists a, outcome (getConfirm p) = Val a) ->
  exists r, outcome (run_device getPin getConfirm d) = Val r.
Proof.
  intros Hpin Hconfirm.
  induction d as [r|p k IH|p k IH]; cbn [run_device].
  - eexists; reflexivity.
  - rewrite outcome_bind. destruct (Hpin p) as [a ->]. apply IH.
  - rewrite outcome_bind. destruct (Hconfirm p) as [a ->]. apply IH.
Qed.

Lemma getConfirmFunc_returns (p : Prompt) :
  exists a, outcome (getConfirmFunc p) = Val a.
Proof. eexists; reflexivity. Qed.

Lemma getPinFunc_pinentry_returns (w : World) (p : Prompt) :
  exists a, outcome (getPinFunc_pinentry w p) = Val a.
Proof. eexists; reflexivity. Qed.

Lemma Part001_getPinFunc_askpass_returns f w p :
  exists a, outcome (Part001.getPinFunc_askpass f w p) = Val a.
Proof.
  unfold Part001.getPinFunc_askpass.
  destruct (verboseFlag f); eexists; reflexivity.
Qed.

Lemma Part002_getPinFunc_askpass_returns f w path p :
  exists a, outcome (Part002.getPinFunc_askpass f w path p) = Val a.
Proof.
  unfold Part002.getPinFunc_askpass.
  destruct (verboseFlag f); cbn;
    destruct (pty_Start w _) as [err|[relayed result]]; cbn;
    destruct (terminal_MakeRaw w); eexists; reflexivity.
Qed.

(** ** Reasoning on the visible events of a run *)

Local Open Scope list_scope.

Lemma quiet_callback_event (e : Event) :
  quiet_event e = true -> callback_event e = true.
Proof. destruct e; try exact (fun H => H). destruct h; cbn; congruence. Qed.

Section Logic.
Variable hidden : Event -> bool.

Lemma visible_app (t u : list Event) :
  visible hidden (t ++ u) = visible hidden t ++ visible hidden u.
Proof. apply filter_app. Qed.

Lemma visible_hidden_only (t : list Event) :
  hidden_only hidden t -> visible hidden t = [].
Proof.
  intros Ht. unfold visible.
  induction Ht as [|e t He Ht IH]; [reflexivity|].
  cbn. now rewrite He, IH.
Qed.

(** An observation that sees no hidden event sees the visible ones. *)
Lemma observed_visible {X} (obs : Event -> list X) (t : list Event) :
  (forall e, hidden e = true -> obs e = []) ->
  flat_map obs t = flat_map obs (visible hidden t).
Proof.
  intros Hobs. unfold visible.
  induction t as [|e t IH]; [reflexivity|]. cbn.
  destruct (hidden e) eqn:He; cbn; rewrite IH; [|reflexivity].
  now rewrite (Hobs e He).
Qed.

Lemma wp_bind {A B} (m : IO A) (k : A -> IO B) Q :
  wp hidden m (fun v r =>
    match r with
    | Val a => wp hidden (k a) (fun v' r' => Q (v ++ v') r')
    | Stop h => Q v (Stop h)
    end) ->
  wp hidden (bind m k) Q.
Proof.
  unfold wp. rewrite events_bind, outcome_bind, visible_app.
  destruct (outcome m); [tauto|]. now rewrite app_nil_r.
Qed.

Lemma wp_ret {A} (a : A) (Q : list Event -> Res A -> Prop) :
  Q [] (Val a) -> wp hidden (ret a) Q.
Proof. exact (fun H => H). Qed.

Lemma wp_halt {A} (h : Halt) (Q : list Event -> Res A -> Prop) :
  Q [] (Stop h) -> wp hidden (halt h) Q.
Proof. exact (fun H => H). Qed.

Lemma wp_emit_hidden (e : Event) Q :
  hidden e = true -> Q [] (Val tt) -> wp hidden (emit e) Q.
Proof. unfold wp. cbn. now intros ->. Qed.

Lemma wp_emit_visible (e : Event) Q :
  hidden e = false -> Q [e] (Val tt) -> wp hidden (emit e) Q.
Proof. unfold wp. cbn. now intros ->. Qed.

(** A computation that shows nothing and returns. *)
Lemma wp_hidden {A} (m : IO A) Q :
  hidden_only hidden (events m) ->
  (exists a, outcome m = Val a) ->
  (forall a, Q [] (Val a)) -> wp hidden m Q.
Proof.
  unfold wp. intros Hm [a Ha] HQ.
  now rewrite (visible_hidden_only _ Hm), Ha.
Qed.

Lemma wp_when_hidden (b : bool) (m : IO unit) Q :
  hidden_only hidden (events m) -> outcome m = Val tt ->
  Q [] (Val tt) -> wp hidden (when b m) Q.
Proof.
  intros Hm Ho HQ. destruct b; [|exact HQ].
  unfold wp. cbn [when]. now rewrite (visible_hidden_only _ Hm), Ho.
Qed.

Lemma wp_defer_hidden {A} (d : IO unit) (body : IO A) Q :
  hidden_only hidden (events d) -> outcome d = Val tt ->
  wp hidden body Q -> wp hidden (defer d body) Q.
Proof.
  unfold wp.
  destruct d as [t' r'], body as [t [a|h]]; cbn [defer events outcome fst snd].
  - intros Hd -> HQ.
    now rewrite visible_app, (visible_hidden_only _ Hd), app_nil_r.
  - intros Hd -> HQ. destruct h; cbn [events outcome fst snd]; try exact HQ.
    now rewrite visible_app, (visible_hidden_only _ Hd), app_nil_r.
Qed.

Lemma wp_discover f w Q :
  (forall e, quiet_event e = true -> hidden e = true) ->
  Q [] (Stop (Exit 6)) ->
  (forall path, Q [] (Val path)) ->
  wp hidden (Part002.discover_askpass f w) Q.
Proof.
  intros Hh Hexit Hval. unfold wp.
  destruct (discover_askpass_cases f w) as [Hq Ho].
  rewrite visible_hidden_only.
  - destruct Ho as [-> | [path ->]]; auto.
  - eapply Forall_impl; [|exact Hq]. exact Hh.
Qed.
End Logic.

Create HintDb callbacks.
#[local] Hint Resolve getConfirmFunc_quiet getPinFunc_pinentry_quiet
  Part002_getPinFunc_askpass_quiet Part001_getPinFunc_askpass_quiet
  Part001_getPinFunc_askpass_callback_only quiet_callback_only
  getConfirmFunc_returns getPinFunc_pinentry_returns
  Part001_getPinFunc_askpass_returns Part002_getPinFunc_askpass_returns
  : callbacks.

(** Side conditions: a hidden piece of [main] and its return. *)
Ltac hidden_side :=
  solve [ repeat constructor
        | reflexivity
        | eexists; reflexivity
        | match goal with |- context [when ?b _] => destruct b end;
          hidden_side ].

Ltac callback_side :=
  intro;
  try match goal with |- context [if ?b then _ else _] => destruct b end;
  auto with callbacks.

Ltac wp_emit :=
  first [ apply wp_emit_hidden; [reflexivity|]
        | apply wp_emit_visible; [reflexivity|] ].

Ltac wp_device :=
  apply wp_hidden;
  [ first [ apply run_device_quiet; callback_side
          | apply run_device_callback_only; callback_side ]
  | apply run_device_returns; callback_side
  | intro ].

(** One step of the run: the head of the computation decides. *)
Ltac wp_head :=
  lazymatch goal with
  | |- wp _ (bind _ _) _ => apply wp_bind
  | |- wp _ (ret _) _ => apply wp_ret
  | |- wp _ (halt _) _ => apply wp_halt
  | |- wp _ (os_Exit _) _ => apply wp_halt
  | |- wp _ (panic _) _ => apply wp_halt
  | |- wp _ (emit (if ?b then _ else _)) _ => destruct b eqn:?
  | |- wp _ (emit _) _ => wp_emit
  | |- wp _ (fmt_Printf _) _ => wp_emit
  | |- wp _ (fmt_Println _) _ => wp_emit
  | |- wp _ (fmt_Fprintf _ _) _ => wp_emit
  | |- wp _ (fmt_Fprintln _ _) _ => wp_emit
  | |- wp _ (run_device _ _ _) _ => wp_device
  | |- wp _ (Part002.discover_askpass _ _) _ =>
      apply wp_discover;
      [ solve [exact quiet_callback_event | intros; assumption] | | intro ]
  | |- wp _ (defer _ _) _ =>
      apply wp_defer_hidden; [hidden_side | hidden_side |]
  | |- wp _ (when ?b ?m) _ =>
      first [ apply wp_when_hidden; [hidden_side | hidden_side |]
            | destruct b eqn:?; cbn [when] ]
  | |- wp _ (if ?b then _ else _) _ => destruct b eqn:?
  | |- wp _ (match ?x with Some _ => _ | None => _ end) _ => destruct x eqn:?
  | |- wp _ (match ?x with Payload _ => _ | OddLength => _ | Diverges => _ end) _ =>
      destruct x eqn:?
  | |- wp _ (let (_, _) := ?x in _) _ => destruct x eqn:?
  | |- wp _ usage _ => unfold usage
  | |- wp _ (checkError _) _ => unfold checkError
  | |- wp _ (decrypt_block _ _ _) _ => unfold decrypt_block
  | |- wp _ (check_status _ _) _ => unfold check_status
  | |- wp _ (print_result _ _) _ => unfold print_result
  | |- wp _ (acquire_input _ _ _) _ => unfold acquire_input
  end.

Ltac wp_run :=
  repeat (wp_head; cbv beta iota; cbn [app negb andb orb] in *;
          try discriminate).

(** What the observations make of the hidden events. *)
Lemma payload_of_hidden e : callback_event e = true -> payload_of e = [].
Proof. destruct e; cbn; congruence. Qed.
Lemma returned_of_hidden e : callback_event e = true -> returned_of e = [].
Proof. destruct e; cbn; congruence. Qed.
Lemma output_of_hidden e : callback_event e = true -> output_of e = [].
Proof. destruct e; cbn; congruence. Qed.
Lemma read_of_hidden e : callback_event e = true -> read_of e = [].
Proof. destruct e; cbn; congruence. Qed.
Lemma step_of_hidden e : callback_event e = true -> step_of e = [].
Proof. destruct e; cbn; congruence. Qed.
Lemma reset_error_of_hidden e :
  callback_event e = true -> reset_error_of e = [].
Proof. destruct e; cbn; congruence. Qed.
Lemma stdout_of_quiet e : quiet_event e = true -> stdout_of e = [].
Proof. destruct e; cbn; try congruence. destruct h; congruence. Qed.

(** ** The decrypt-side block: claim C1 *)

Lemma even_odd_false (n : nat) : Nat.even n = false -> Nat.odd n = true.
Proof. intros H. unfold Nat.odd. now rewrite H. Qed.

Lemma even_mod_2 (n : nat) : Nat.even n = true -> n mod 2 = 0.
Proof.
  intros E. apply Nat.even_spec in E. destruct E as [m ->].
  rewrite Nat.mul_comm. apply Nat.Div0.mod_mul.
Qed.

Lemma payload_length_mod_32 (hexFlag : bool) (S data : bytes) :
  decrypt_normalize hexFlag S = Payload data -> List.length data mod 32 = 0.
Proof.
  rewrite decrypt_normalize_eq.
  destruct (Nat.even _) eqn:E; [|discriminate].
  intros H. injection H as <-.
  rewrite bytes_of_string_length, string_length_app, zero_pairs_length.
  apply padded_length_mod_32, even_mod_2, E.
Qed.

(** C1. For every input byte sequence [S] of length [L], with the hex flag
    unset the decrypt-side normalization produces the lowercase hex encoding
    of [S] (length [2L]) followed by exactly [(32 - (2L mod 32)) mod 32]
    characters, every pair of them ["00"], and the length of the whole is a
    multiple of 32.  Under either flag the normalization produces a payload
    whose length is a multiple of 32, the parity abort apart, which takes
    the hex flag and an odd [L]. *)
Theorem decrypt_padding_multiple_of_32 (S : bytes) :
  let L := List.length S in
  let hexed := hex_EncodeToString S in
  let padding := zero_pairs (pad_chars (2 * L) / 2) in
  decrypt_normalize false S = Payload (bytes_of_string (hexed ++ padding)%string)
  /\ String.length hexed = 2 * L
  /\ String.length padding = (32 - (2 * L) mod 32) mod 32
  /\ List.length (bytes_of_string (hexed ++ padding)%string) mod 32 = 0
  /\ forall hexFlag,
       (exists payload,
          decrypt_normalize hexFlag S = Payload payload /\
          List.length payload mod 32 = 0)
       \/ (decrypt_normalize hexFlag S = OddLength /\
           hexFlag = true /\ Nat.odd L = true).
Proof.
  cbv zeta.
  assert (Hlen : String.length (hex_EncodeToString S) = 2 * List.length S)
    by apply hex_EncodeToString_length.
  assert (Heven : Nat.even (2 * List.length S) = true).
  { apply Nat.even_spec. now exists (List.length S). }
  assert (Hfalse : decrypt_normalize false S =
            Payload (bytes_of_string
                       (hex_EncodeToString S ++
                        zero_pairs (pad_chars (2 * List.length S) / 2))%string)).
  { rewrite decrypt_normalize_eq. cbn [dataHexed_init negb].
    now rewrite Hlen, Heven. }
  split; [exact Hfalse|]. split; [exact Hlen|]. split; [|split].
  - rewrite zero_pairs_length. fold (pad_chars (2 * List.length S)).
    pose proof (pad_chars_even _ (even_mod_2 _ Heven)) as He.
    pose proof (Nat.div_mod_eq (pad_chars (2 * List.length S)) 2). lia.
  - exact (payload_length_mod_32 _ _ _ Hfalse).
  - intros hexFlag.
    destruct (decrypt_normalize hexFlag S) as [data| |] eqn:E.
    + left. exists data. split; [reflexivity|].
      exact (payload_length_mod_32 _ _ _ E).
    + right. split; [reflexivity|].
      destruct hexFlag; [|rewrite Hfalse in E; discriminate].
      split; [reflexivity|].
      rewrite decrypt_normalize_eq in E. cbn [dataHexed_init negb] in E.
      rewrite string_of_bytes_length in E.
      destruct (Nat.even (List.length S)) eqn:E'; [discriminate|].
      now apply even_odd_false.
    + exfalso. revert E. rewrite decrypt_normalize_eq. cbv zeta.
      destruct (Nat.even (String.length (dataHexed_init hexFlag S)));
        intros E; discriminate E.
Qed.

(** ** What reaches the device *)

(** Rewrites with the equations the run has collected. *)
Ltac use_equations :=
  repeat match goal with
         | H : ?x = _ |- context [?x] =>
             lazymatch x with
             | true => fail
             | false => fail
             | _ => idtac
             end;
             tryif is_var x then fail else rewrite H
         end.

Ltac handed_finish :=
  cbn [payloads flat_map payload_of app];
  repeat constructor;
  unfold handed, resolved_input; use_equations;
  cbn [fst snd]; try reflexivity; try assumption.

Lemma MainGo_payloads_handed (f : Flags) (w : World) :
  Forall (handed f (fst (ioutil_ReadAll_Stdin w)))
         (payloads (events (MainGo.main f w))).
Proof.
  unfold payloads.
  rewrite (observed_visible callback_event _ _ payload_of_hidden).
  change (wp callback_event (MainGo.main f w)
            (fun v _ => Forall (handed f (fst (ioutil_ReadAll_Stdin w)))
                               (payloads v))).
  unfold MainGo.main. wp_run; handed_finish.
Qed.

Lemma Part001_payloads_handed (f : Flags) (w : World) :
  Forall (handed f (resolved_input f w))
         (payloads (events (Part001.main f w))).
Proof.
  unfold payloads.
  rewrite (observed_visible callback_event _ _ payload_of_hidden).
  change (wp callback_event (Part001.main f w)
            (fun v _ => Forall (handed f (resolved_input f w)) (payloads v))).
  unfold Part001.main. wp_run; handed_finish.
Qed.

Lemma Part002_payloads_handed (f : Flags) (w : World) :
  Forall (handed f (resolved_input f w))
         (payloads (events (Part002.main f w))).
Proof.
  unfold payloads.
  rewrite (observed_visible callback_event _ _ payload_of_hidden).
  change (wp callback_event (Part002.main f w)
            (fun v _ => Forall (handed f (resolved_input f w)) (payloads v))).
  unfold Part002.main. wp_run; handed_finish.
Qed.

Lemma mod_32_mod_16 (n : nat) : n mod 32 = 0 -> n mod 16 = 0.
Proof.
  change 32 with (16 * 2). rewrite Nat.Div0.mod_mul_r. lia.
Qed.

Lemma zero_pairs_lower_hex (k : nat) :
  Forall (fun b => is_lower_hex_byte b = true) (bytes_of_string (zero_pairs k)).
Proof.
  induction k as [|k IH]; [constructor|].
  cbn [zero_pairs]. rewrite bytes_of_string_app.
  apply Forall_app. split; [repeat constructor | exact IH].
Qed.

Lemma handed_lower_hex (f : Flags) (input payload : bytes) :
  decryptFlag f = true -> hexFlag f = false -> handed f input payload ->
  Forall (fun b => is_lower_hex_byte b = true) payload.
Proof.
  unfold handed. intros -> -> H.
  rewrite decrypt_normalize_eq in H. cbn [dataHexed_init negb] in H.
  destruct (Nat.even (String.length (hex_EncodeToString input)));
    [|discriminate H].
  injection H as <-. rewrite bytes_of_string_app.
  apply Forall_app.
  split; [apply hex_EncodeToString_lower_hex | apply zero_pairs_lower_hex].
Qed.

(** C10. On decrypt with the hex flag unset every byte of the payload
    handed to the device is one of ['0'..'9'], ['a'..'f'], for every input
    (here for the runs of main.go and of part_002, and for the block on
    any input [S]).  With the hex flag set the block looks at the length of
    the input only: an input of even length goes to the device byte for
    byte, followed by the ["00"] padding, whatever its bytes are. *)
Theorem decrypt_payload_alphabet (f : Flags) (w : World) (S : bytes)
    (Hdecrypt : decryptFlag f = true) (Hhex : hexFlag f = false) :
  Forall (Forall (fun b => is_lower_hex_byte b = true))
         (payloads (events (MainGo.main f w)))
  /\ Forall (Forall (fun b => is_lower_hex_byte b = true))
            (payloads (events (Part002.main f w)))
  /\ (exists payload,
        decrypt_normalize false S = Payload payload /\
        Forall (fun b => is_lower_hex_byte b = true) payload)
  /\ decrypt_normalize true S =
       (if Nat.even (List.length S)
        then Payload (S ++ bytes_of_string
                             (zero_pairs (pad_chars (List.length S) / 2)))
        else OddLength).
Proof.
  split; [|split; [|split]].
  - eapply Forall_impl; [|apply MainGo_payloads_handed].
    intros d. now apply handed_lower_hex.
  - eapply Forall_impl; [|apply Part002_payloads_handed].
    intros d. now apply handed_lower_hex.
  - pose proof (decrypt_normalize_eq false S) as E. cbv zeta in E.
    cbn [dataHexed_init negb] in E.
    assert (Heven : Nat.even (String.length (hex_EncodeToString S)) = true).
    { rewrite hex_EncodeToString_length. apply Nat.even_spec.
      now exists (List.length S). }
    rewrite Heven in E. eexists. split; [exact E|].
    apply (handed_lower_hex (with_mode false true false default_flags) S);
      [reflexivity | reflexivity | exact E].
  - rewrite decrypt_normalize_eq. cbn [dataHexed_init negb].
    rewrite string_of_bytes_length.
    destruct (Nat.even (List.length S)); [|reflexivity].
    now rewrite bytes_of_string_app, bytes_of_string_of_bytes.
Qed.

Lemma decrypt_payload_alphabet_witness :
  decryptFlag (with_mode false true false default_flags) = true
  /\ hexFlag (with_mode false true false default_flags) = false
  /\ payloads (events (MainGo.main (with_mode false true false default_flags)
                         (sample_world "Some key" MessageType_Success)))
     = [bytes_of_string "536f6d65206b65790000000000000000"]
  /\ Forall (Forall (fun b => is_lower_hex_byte b = true))
       (payloads (events (MainGo.main (with_mode false true false default_flags)
                            (sample_world "Some key" MessageType_Success)))).
Proof.
  split; [reflexivity|]. split; [reflexivity|]. split; [reflexivity|].
  exact (proj1 (decrypt_payload_alphabet
                  (with_mode false true false default_flags)
                  (sample_world "Some key" MessageType_Success)
                  (bytes_of_string "Some key") eq_refl eq_refl)).
Defined.

(** ** C6: the parity check *)

Lemma normalize_odd (hexFlag : bool) (data : bytes) :
  decrypt_normalize hexFlag data = OddLength <->
  Nat.odd (String.length (dataHexed_init hexFlag data)) = true.
Proof.
  rewrite decrypt_normalize_eq. unfold Nat.odd.
  destruct (Nat.even (String.length (dataHexed_init hexFlag data)));
    cbn; split; congruence.
Qed.

Lemma normalize_payload_even (hexFlag : bool) (data payload : bytes) :
  decrypt_normalize hexFlag data = Payload payload ->
  Nat.odd (String.length (dataHexed_init hexFlag data)) = false.
Proof.
  rewrite decrypt_normalize_eq. unfold Nat.odd.
  destruct (Nat.even (String.length (dataHexed_init hexFlag data)));
    cbn; congruence.
Qed.

Lemma normalize_not_diverges (hexFlag : bool) (data : bytes) :
  decrypt_normalize hexFlag data <> Diverges.
Proof.
  rewrite decrypt_normalize_eq.
  destruct (Nat.even (String.length (dataHexed_init hexFlag data)));
    discriminate.
Qed.

Ltac parity_finish :=
  first
  [ match goal with
    | H : decrypt_normalize _ _ = Diverges |- _ =>
        exfalso; exact (normalize_not_diverges _ _ H)
    end
  | unfold parity_checked, resolved_input; use_equations; cbn [fst snd];
    repeat match goal with
           | H : decrypt_normalize _ _ = Payload _ |- _ =>
               apply normalize_payload_even in H
           | H : decrypt_normalize _ _ = OddLength |- _ =>
               apply normalize_odd in H
           end;
    split;
    [ intros Hr; first [discriminate Hr | split; congruence]
    | intros Hd Ho;
      first [congruence | split; [reflexivity | eexists; reflexivity]] ] ].

Lemma MainGo_parity_checked (f : Flags) (w : World) :
  wp callback_event (MainGo.main f w)
     (parity_checked "len(dataHexed) is odd" f (fst (ioutil_ReadAll_Stdin w))).
Proof. unfold MainGo.main. wp_run. all: parity_finish. Qed.

Lemma Part002_parity_checked (f : Flags) (w : World) :
  wp callback_event (Part002.main f w)
     (parity_checked "internal error: len(dataHexed) is odd" f
        (resolved_input f w)).
Proof. unfold Part002.main. wp_run. all: parity_finish. Qed.

(** C6. On decrypt the block panics if and only if the hex text (the
    hex-encoded input when the hex flag is unset, the input read as text
    when it is set) has odd length; with the hex flag unset the hex text has
    even length and the block returns a payload for every input.  In the
    runs of main.go and of part_002: a run ends in the parity panic only
    under [--decrypt] with a hex text of odd length, and every run under
    [--decrypt] with such a hex text stops before the device gets a
    payload. *)
Theorem odd_hex_text_panics (msg : string) (hexFlag : bool) (data : bytes)
    (f : Flags) (w : World) :
  (outcome (decrypt_block msg hexFlag data) = Stop (Panic (PanicString msg))
   <-> Nat.odd (String.length (dataHexed_init hexFlag data)) = true)
  /\ ((exists h, outcome (decrypt_block msg hexFlag data) = Stop h)
      <-> Nat.odd (String.length (dataHexed_init hexFlag data)) = true)
  /\ dataHexed_init hexFlag data =
       (if hexFlag then string_of_bytes data else hex_EncodeToString data)
  /\ Nat.even (String.length (hex_EncodeToString data)) = true
  /\ (exists payload, outcome (decrypt_block msg false data) = Val payload)
  /\ parity_checked "len(dataHexed) is odd" f (fst (ioutil_ReadAll_Stdin w))
       (events (MainGo.main f w)) (outcome (MainGo.main f w))
  /\ parity_checked "internal error: len(dataHexed) is odd" f
       (resolved_input f w)
       (events (Part002.main f w)) (outcome (Part002.main f w)).
Proof.
  assert (Hhex : Nat.even (String.length (hex_EncodeToString data)) = true).
  { rewrite hex_EncodeToString_length. apply Nat.even_spec.
    now exists (List.length data). }
  assert (Hcase :
    outcome (decrypt_block msg hexFlag data) =
      if Nat.even (String.length (dataHexed_init hexFlag data))
      then Val (bytes_of_string
                  (dataHexed_init hexFlag data ++
                   zero_pairs
                     (pad_chars (String.length (dataHexed_init hexFlag data)) / 2))%string)
      else Stop (Panic (PanicString msg))).
  { unfold decrypt_block. rewrite outcome_bind. cbn [outcome emit snd].
    rewrite decrypt_normalize_eq.
    destruct (Nat.even (String.length (dataHexed_init hexFlag data)));
      reflexivity. }
  split; [|split; [|split; [|split; [|split; [|split]]]]].
  - rewrite Hcase. unfold Nat.odd.
    destruct (Nat.even (String.length (dataHexed_init hexFlag data)));
      cbn; split; congruence.
  - rewrite Hcase. unfold Nat.odd.
    destruct (Nat.even (String.length (dataHexed_init hexFlag data)));
      cbn; split; intros H; try discriminate H; try reflexivity.
    + destruct H as [h H]. discriminate H.
    + eexists; reflexivity.
  - destruct hexFlag; reflexivity.
  - exact Hhex.
  - unfold decrypt_block. rewrite outcome_bind. cbn [outcome emit snd].
    rewrite decrypt_normalize_eq.
    cbn [dataHexed_init negb]. rewrite Hhex. eexists; reflexivity.
  - pose proof (MainGo_parity_checked f w) as H.
    unfold wp, parity_checked, payloads in *.
    now rewrite <- (observed_visible callback_event payload_of
                      (events (MainGo.main f w)) payload_of_hidden) in H.
  - pose proof (Part002_parity_checked f w) as H.
    unfold wp, parity_checked, payloads in *.
    now rewrite <- (observed_visible callback_event payload_of
                      (events (Part002.main f w)) payload_of_hidden) in H.
Qed.

(** ** C2: the alignment of the payload *)

(** The claim fails for [--encrypt]: the eight bytes of ["Some key"] reach
    the device as they are, in main.go and in part_002. *)
Lemma encrypt_payload_not_aligned :
  payloads (events (MainGo.main (with_mode true false false default_flags)
                      (sample_world "Some key" MessageType_Success)))
    = [bytes_of_string "Some key"]
  /\ payloads (events (Part002.main (with_mode true false false default_flags)
                         (askpass_world "Some key" MessageType_Success)))
    = [bytes_of_string "Some key"]
  /\ ~ Forall (fun payload => List.length payload mod 16 = 0)
         (payloads (events (MainGo.main (with_mode true false false default_flags)
                              (sample_world "Some key" MessageType_Success))))
  /\ ~ Forall (fun payload => List.length payload mod 16 = 0)
         (payloads (events (Part002.main (with_mode true false false default_flags)
                              (askpass_world "Some key" MessageType_Success)))).
Proof.
  split; [vm_compute; reflexivity|]. split; [vm_compute; reflexivity|].
  split; intros H; vm_compute in H; inversion H as [|? ? Hlen]; discriminate Hlen.
Qed.

(** C2, amended. Whenever [--decrypt] is set, the payload handed to the
    device has a byte length that is a multiple of 32, hence of 16; when it
    is not set (the run encrypts) the payload is the acquired input as it
    is, of whatever length.  In the three revisions. *)
Theorem payload_alignment (f : Flags) (w : World) :
  let aligned input payload :=
    if decryptFlag f
    then List.length payload mod 32 = 0 /\ List.length payload mod 16 = 0
    else payload = input in
  Forall (aligned (fst (ioutil_ReadAll_Stdin w)))
         (payloads (events (MainGo.main f w)))
  /\ Forall (aligned (resolved_input f w))
            (payloads (events (Part001.main f w)))
  /\ Forall (aligned (resolved_input f w))
            (payloads (events (Part002.main f w))).
Proof.
  cbv zeta.
  assert (Haligned : forall input payload, handed f input payload ->
            if decryptFlag f
            then List.length payload mod 32 = 0 /\ List.length payload mod 16 = 0
            else payload = input).
  { unfold handed. intros input payload H. destruct (decryptFlag f); [|exact H].
    pose proof (payload_length_mod_32 _ _ _ H) as H32.
    split; [exact H32 | now apply mod_32_mod_16]. }
  split; [|split].
  - eapply Forall_impl; [|apply MainGo_payloads_handed]. apply Haligned.
  - eapply Forall_impl; [|apply Part001_payloads_handed]. apply Haligned.
  - eapply Forall_impl; [|apply Part002_payloads_handed]. apply Haligned.
Qed.

(** ** C3: the order of the steps *)

(** A completed run of part_002 that encrypts standard input: the input is
    acquired before the prompt backend exists and before the device session
    is reset. *)
Lemma part_002_reads_input_before_reset :
  outcome (Part002.main (with_mode true false false default_flags)
             (askpass_world "Some key" MessageType_Success)) = Val tt
  /\ steps (events (Part002.main (with_mode true false false default_flags)
                      (askpass_world "Some key" MessageType_Success)))
     = [StMode; StInput; StBackend; StReset; StCipher; StValidate; StOutput]
  /\ filter (applicable (with_mode true false false default_flags)) spec_order
     = [StMode; StBackend; StReset; StInput; StCipher; StValidate; StOutput]
  /\ steps (events (Part002.main (with_mode true false false default_flags)
                      (askpass_world "Some key" MessageType_Success)))
     <> filter (applicable (with_mode true false false default_flags))
               spec_order.
Proof.
  split; [vm_compute; reflexivity|].
  split; [vm_compute; reflexivity|].
  split; [vm_compute; reflexivity|].
  vm_compute. discriminate.
Qed.

Ltac steps_finish :=
  unfold ordered;
  cbn [steps reset_errors flat_map step_of reset_error_of app filter
       applicable spec_order part_002_order];
  use_equations; cbn [andb]; use_equations;
  split;
  [ first [ reflexivity
          | eexists; split; [|reflexivity];
            repeat match goal with
                   | |- context [if ?b then _ else _] => destruct b
                   end;
            discriminate ]
  | first [ left; reflexivity
          | right; split; [eexists; reflexivity | reflexivity] ] ].

Lemma Part001_ordered (f : Flags) (w : World) :
  wp callback_event (Part001.main f w)
     (ordered f spec_order [StMode; StBackend; StReset]).
Proof. unfold Part001.main. wp_run. all: steps_finish. Qed.

Lemma Part002_ordered (f : Flags) (w : World) :
  wp callback_event (Part002.main f w)
     (ordered f part_002_order [StMode; StInput; StBackend; StReset]).
Proof. unfold Part002.main. wp_run. all: steps_finish. Qed.

(** C3, amended. In part_001 every run takes the steps in the order the
    claim gives: mode, prompt backend, device reset (fatal on failure),
    input, padding, cipher operation, validation, hex encoding, output.  In
    part_002 the input comes before the backend: mode, input, prompt
    backend, device reset (fatal on failure), padding, cipher operation,
    validation (of the error), hex encoding, output.  Padding is a step of
    [--decrypt] only, hex encoding of [--encrypt] with [--hex] only.  A run
    that completes takes each of its steps exactly once; a run that stops
    early has taken a proper initial part of them, each once, and a reset
    that fails is the last step of its run.  So no run resets the device
    twice or after the cipher operation, and every run that reaches the
    cipher operation has reset the device exactly once before it. *)
Theorem steps_in_order (f : Flags) (w : World) :
  ordered f spec_order [StMode; StBackend; StReset]
    (events (Part001.main f w)) (outcome (Part001.main f w))
  /\ ordered f part_002_order [StMode; StInput; StBackend; StReset]
       (events (Part002.main f w)) (outcome (Part002.main f w)).
Proof.
  pose proof (Part001_ordered f w) as H1.
  pose proof (Part002_ordered f w) as H2.
  unfold wp, ordered, steps, reset_errors in *.
  set (m1 := Part001.main f w) in *. set (m2 := Part002.main f w) in *.
  rewrite <- (observed_visible callback_event step_of (events m1) step_of_hidden) in H1.
  rewrite <- (observed_visible callback_event reset_error_of (events m1)
                reset_error_of_hidden) in H1.
  rewrite <- (observed_visible callback_event step_of (events m2) step_of_hidden) in H2.
  rewrite <- (observed_visible callback_event reset_error_of (events m2)
                reset_error_of_hidden) in H2.
  split; assumption.
Qed.

(** ** Standard output without [--verbose] *)

Ltac status_finish :=
  unfold status_checked, printed;
  cbn [returned outputs stdout_writes flat_map returned_of output_of
       stdout_of app];
  use_equations; repeat split; try reflexivity; try exact I.

(** In main.go and part_001 the progress lines of [--verbose] go to
    standard output; without the flag the result is all that is written
    there. *)
Lemma MainGo_stdout_quiet (f : Flags) (w : World) :
  verboseFlag f = false ->
  wp quiet_event (MainGo.main f w) (fun v _ => stdout_writes v = outputs v).
Proof. intros Hv. unfold MainGo.main. rewrite Hv. wp_run; status_finish. Qed.

Lemma Part001_stdout_quiet (f : Flags) (w : World) :
  verboseFlag f = false ->
  wp quiet_event (Part001.main f w) (fun v _ => stdout_writes v = outputs v).
Proof.
  intros Hv. unfold Part001.main, acquire_input. rewrite Hv.
  wp_run; status_finish.
Qed.

(** ** C4: input resolution *)

Lemma bytes_of_string_nonempty (c : ascii) (s : string) :
  (List.length (bytes_of_string (String c s)) =? 0)%nat = false.
Proof. reflexivity. Qed.

Lemma acquire_input_resolves (h : Handle) (f : Flags) (w : World) :
  match spec_resolve_input (os_Getenv w "TREZOR_CIPHER_VALUE")
                           (inputValueFileParameter f) with
  | UseEnv value =>
      reads (events (acquire_input h f w)) = [] /\
      outcome (acquire_input h f w) = Val value
  | UseRead src =>
      reads (events (acquire_input h f w)) = [src] /\
      outcome (acquire_input h f w) =
        match world_read w src with
        | (data, None) => Val data
        | (_, Some _) => Stop (Exit (-1))
        end
  end.
Proof.
  unfold acquire_input, spec_resolve_input.
  destruct (os_Getenv w "TREZOR_CIPHER_VALUE") as [|c env].
  - cbn [bytes_of_string list_byte_of_string list_ascii_of_string map
         List.length Nat.eqb].
    destruct (inputValueFileParameter f =? "-")%string; cbn [world_read].
    + destruct (ioutil_ReadAll_Stdin w) as [data [e|]];
        destruct (verboseFlag f); split; reflexivity.
    + destruct (ioutil_ReadFile w (inputValueFileParameter f)) as [data [e|]];
        destruct (verboseFlag f); split; reflexivity.
  - rewrite bytes_of_string_nonempty. split; reflexivity.
Qed.

(** The equations of a run against [read_fails] and the selected read. *)
Ltac resolve_finish :=
  unfold read_fails, spec_resolve_input in *;
  repeat match goal with
         | H : (List.length (bytes_of_string ?s) =? 0)%nat = _ |- _ =>
             destruct s; cbn in H; try discriminate H; clear H
         end;
  use_equations; cbn [world_read fst snd] in *; use_equations;
  cbn [fst snd reads outputs payloads stdout_writes flat_map read_of
       output_of payload_of stdout_of app];
  repeat match goal with
         | |- _ /\ _ => split
         | |- if ?c then _ else True => destruct c; [|exact I]
         end;
  try discriminate;
  try solve [ reflexivity | left; reflexivity | right; reflexivity
            | eexists; reflexivity | exact I ].

Lemma Part001_read_error (f : Flags) (w : World) :
  wp callback_event (Part001.main f w) (fun v r =>
    (reads v = [] \/
     reads v = match spec_resolve_input (os_Getenv w "TREZOR_CIPHER_VALUE")
                                        (inputValueFileParameter f) with
               | UseEnv _ => []
               | UseRead src => [src]
               end) /\
    if read_fails f w
    then (reads v = [] \/ r = Stop (Exit (-1))) /\ (exists h, r = Stop h) /\
         outputs v = [] /\ payloads v = []
    else True).
Proof. unfold Part001.main. wp_run; resolve_finish. Qed.

Lemma Part002_read_error (f : Flags) (w : World) :
  wp callback_event (Part002.main f w) (fun v r =>
    (reads v = [] \/
     reads v = match spec_resolve_input (os_Getenv w "TREZOR_CIPHER_VALUE")
                                        (inputValueFileParameter f) with
               | UseEnv _ => []
               | UseRead src => [src]
               end) /\
    if read_fails f w
    then (reads v = [] \/ r = Stop (Exit (-1))) /\ (exists h, r = Stop h) /\
         outputs v = [] /\ payloads v = []
    else True).
Proof. unfold Part002.main. wp_run; resolve_finish. Qed.

Lemma Part002_read_error_stdout (f : Flags) (w : World) :
  wp quiet_event (Part002.main f w) (fun v r =>
    if read_fails f w then stdout_writes v = [] else True).
Proof. unfold Part002.main. wp_run; resolve_finish. Qed.

(** C4. Input resolution follows the priority of the specification's
    [resolve_input]: a set, non-empty environment value is used verbatim and
    neither standard input nor a file is read; otherwise standard input is
    read in full for the sentinel ["-"]; otherwise the named file is read
    in full.  A whole run of part_001 or part_002 reads nothing else, and a
    read that ends in an error stops the run at once (exit code -1) with no
    cipher operation and without the result being written; in part_002,
    and in part_001 without [--verbose], nothing at all reaches standard
    output then. *)
Theorem input_resolution (h : Handle) (f : Flags) (w : World) :
  match spec_resolve_input (os_Getenv w "TREZOR_CIPHER_VALUE")
                           (inputValueFileParameter f) with
  | UseEnv value =>
      reads (events (acquire_input h f w)) = [] /\
      outcome (acquire_input h f w) = Val value /\
      reads (events (Part001.main f w)) = [] /\
      reads (events (Part002.main f w)) = []
  | UseRead src =>
      reads (events (acquire_input h f w)) = [src] /\
      outcome (acquire_input h f w) =
        match world_read w src with
        | (data, None) => Val data
        | (_, Some _) => Stop (Exit (-1))
        end /\
      (reads (events (Part001.main f w)) = [] \/
       reads (events (Part001.main f w)) = [src]) /\
      (reads (events (Part002.main f w)) = [] \/
       reads (events (Part002.main f w)) = [src])
  end
  /\ (if read_fails f w
      then (reads (events (Part001.main f w)) = [] \/
            outcome (Part001.main f w) = Stop (Exit (-1)))
           /\ (exists h', outcome (Part001.main f w) = Stop h')
           /\ outputs (events (Part001.main f w)) = []
           /\ payloads (events (Part001.main f w)) = []
           /\ (if verboseFlag f then True
               else stdout_writes (events (Part001.main f w)) = [])
           /\ (reads (events (Part002.main f w)) = [] \/
               outcome (Part002.main f w) = Stop (Exit (-1)))
           /\ (exists h', outcome (Part002.main f w) = Stop h')
           /\ outputs (events (Part002.main f w)) = []
           /\ payloads (events (Part002.main f w)) = []
           /\ stdout_writes (events (Part002.main f w)) = []
      else True).
Proof.
  pose proof (acquire_input_resolves h f w) as Hacq.
  pose proof (Part001_read_error f w) as H1.
  pose proof (Part002_read_error f w) as H2.
  pose proof (Part002_read_error_stdout f w) as H3.
  unfold wp in H1, H2, H3.
  unfold reads, outputs, payloads, stdout_writes in *.
  set (m1 := Part001.main f w) in *. set (m2 := Part002.main f w) in *.
  rewrite <- (observed_visible callback_event read_of (events m1) read_of_hidden) in H1.
  rewrite <- (observed_visible callback_event output_of (events m1) output_of_hidden) in H1.
  rewrite <- (observed_visible callback_event payload_of (events m1) payload_of_hidden) in H1.
  rewrite <- (observed_visible callback_event read_of (events m2) read_of_hidden) in H2.
  rewrite <- (observed_visible callback_event output_of (events m2) output_of_hidden) in H2.
  rewrite <- (observed_visible callback_event payload_of (events m2) payload_of_hidden) in H2.
  rewrite <- (observed_visible quiet_event stdout_of (events m2) stdout_of_quiet) in H3.
  destruct H1 as [H1r H1f], H2 as [H2r H2f].
  split.
  - destruct (spec_resolve_input _ _) as [value|src].
    + destruct Hacq as [Ha Ho]. repeat split; try assumption.
      * destruct H1r; assumption.
      * destruct H2r; assumption.
    + destruct Hacq as [Ha Ho]. repeat split; assumption.
  - destruct (read_fails f w); [|exact I].
    destruct H1f as (? & ? & Hout & ?), H2f as (? & ? & ? & ?).
    repeat split; try assumption.
    destruct (verboseFlag f) eqn:Hv; [exact I|].
    pose proof (Part001_stdout_quiet f w Hv) as Hquiet.
    unfold wp, stdout_writes, outputs in Hquiet. fold m1 in Hquiet.
    rewrite <- (observed_visible quiet_event stdout_of (events m1) stdout_of_quiet)
      in Hquiet.
    rewrite <- (observed_visible quiet_event output_of (events m1)) in Hquiet
      by (intros e He; apply output_of_hidden, quiet_callback_event, He).
    now rewrite Hquiet.
Qed.


(** ** C5: askpass discovery and the pinentry flag *)

(** Without an askpass program on the machine and without [-p], a run ends
    with exit code 6 before anything touches the device, whatever
    [--use-pinentry] says. *)
Lemma discovery_failure_exits (f : Flags) (w : World) :
  helpFlag f = false ->
  negb (encryptFlag f) && negb (decryptFlag f) = false ->
  askpassPathParameter f = EmptyString ->
  outcome (Part002.checkIfExecutableExists w Part002.cryptsetupAskpassPath)
    = Val false ->
  outcome (Part002.checkIfExecutableExists w Part002.systemdAskpassPath)
    = Val false ->
  outcome (Part002.main f w) = Stop (Exit 6)
  /\ Forall (fun e => device_call e = false) (events (Part002.main f w)).
Proof.
  intros Hhelp Hmode Hpath Hc Hs.
  assert (Hd : outcome (Part002.discover_askpass f w) = Stop (Exit 6)).
  { unfold Part002.discover_askpass. rewrite Hpath. cbn [String.eqb].
    rewrite outcome_bind, Hc, outcome_bind, Hs. reflexivity. }
  assert (Hq : quiet (events (Part002.discover_askpass f w)))
    by apply discover_askpass_cases.
  unfold Part002.main. rewrite Hhelp, Hmode. cbn [when].
  destruct (Part002.discover_askpass f w) as [t r].
  cbn [outcome snd events fst] in Hd, Hq. subst r. cbn.
  split; [reflexivity|].
  constructor; [reflexivity|].
  eapply Forall_impl; [|exact Hq].
  intros e He. destruct e; cbn in *; congruence.
Qed.

(** C5, the code at the failing input: [--encrypt --use-pinentry] on a
    machine without an askpass program.  The run looks for the two askpass
    programs, prints the advice to use [-P] or [-p] and leaves with exit
    code 6; pinentry, asked for by [-P], is never reached. *)
Theorem pinentry_flag_does_not_skip_discovery :
  usePinentryFlag (with_pinentry (with_mode true false false default_flags))
    = true
  /\ Part002.main (with_pinentry (with_mode true false false default_flags))
       (sample_world "Some key" MessageType_Success)
     = ([EvStep StMode; EvStat "/lib/cryptsetup/askpass"; EvGetenv "PATH";
         EvStat "/usr/bin/systemd-ask-password";
         EvStat "/bin/systemd-ask-password";
         EvWrite os_Stderr
           ("Error: There's no askpass utility found. Please use option -P or -p to select an utility to enter a PIN-code and a passphrase."
            ++ nl)%string],
        Stop (Exit 6)).
Proof. split; vm_compute; reflexivity. Qed.

(** ** C7: the confirmation callback *)

(** C7. The confirmation callback registered with the device returns
    [false] and no error for every prompt, without any effect: it asks
    nobody and waits for nothing, and an operation of the device that asks
    for a confirmation goes on at once from the answer [false]. *)
Theorem confirmation_always_denied (p : Prompt) :
  getConfirmFunc p = ret (false, None)
  /\ events (getConfirmFunc p) = []
  /\ outcome (getConfirmFunc p) = Val (false, None)
  /\ forall (R : Type) getPin (k : bool * option error -> Device R),
       run_device getPin getConfirmFunc (AskConfirm p k)
       = run_device getPin getConfirmFunc (k (false, None)).
Proof.
  repeat split. intros R getPin k. cbn [run_device].
  unfold getConfirmFunc, ret, bind.
  destruct (run_device getPin _ (k (false, None))) as [t r]. reflexivity.
Qed.

(** ** C8: the result status *)

Lemma status_accepted_iff (msgType : Z) :
  status_accepted msgType = true <->
  msgType = MessageType_Success \/ msgType = MessageType_CipheredKeyValue.
Proof.
  unfold status_accepted. rewrite orb_true_iff, !Z.eqb_eq. tauto.
Qed.

Lemma MainGo_status_checked (f : Flags) (w : World) :
  wp callback_event (MainGo.main f w) (status_checked f).
Proof. unfold MainGo.main. wp_run; status_finish. Qed.

Lemma Part001_status_checked (f : Flags) (w : World) :
  wp callback_event (Part001.main f w) (status_checked f).
Proof. unfold Part001.main. wp_run; status_finish. Qed.

(** C8. The status the cipher-key-value operation returns is accepted
    exactly when it is [Success] or [CipheredKeyValue].  In main.go and in
    part_001 a run that got a status back either had an accepted one, and
    then completes and prints the result, or panics with the unexpected
    message and prints no result; a run that got no status back prints none
    either.  Without [--verbose] nothing but the result ever reaches
    standard output, so a rejected status leaves it empty. *)
Theorem status_allow_list (f : Flags) (w : World) (msgType : Z) :
  (status_accepted msgType = true <->
   msgType = MessageType_Success \/ msgType = MessageType_CipheredKeyValue)
  /\ status_checked f (events (MainGo.main f w)) (outcome (MainGo.main f w))
  /\ status_checked f (events (Part001.main f w)) (outcome (Part001.main f w))
  /\ (if verboseFlag f then True
      else stdout_writes (events (MainGo.main f w))
             = outputs (events (MainGo.main f w))
           /\ stdout_writes (events (Part001.main f w))
              = outputs (events (Part001.main f w))).
Proof.
  split; [apply status_accepted_iff|].
  pose proof (MainGo_status_checked f w) as H1.
  pose proof (Part001_status_checked f w) as H2.
  unfold wp, status_checked, returned, outputs in *.
  set (m0 := MainGo.main f w) in *. set (m1 := Part001.main f w) in *.
  rewrite <- (observed_visible callback_event returned_of (events m0) returned_of_hidden) in H1.
  rewrite <- (observed_visible callback_event output_of (events m0) output_of_hidden) in H1.
  rewrite <- (observed_visible callback_event returned_of (events m1) returned_of_hidden) in H2.
  rewrite <- (observed_visible callback_event output_of (events m1) output_of_hidden) in H2.
  split; [exact H1|]. split; [exact H2|].
  destruct (verboseFlag f) eqn:Hv; [exact I|].
  pose proof (MainGo_stdout_quiet f w Hv) as H3.
  pose proof (Part001_stdout_quiet f w Hv) as H4.
  unfold wp, stdout_writes, outputs in H3, H4. fold m0 in H3. fold m1 in H4.
  rewrite <- (observed_visible quiet_event stdout_of (events m0) stdout_of_quiet) in H3.
  rewrite <- (observed_visible quiet_event stdout_of (events m1) stdout_of_quiet) in H4.
  rewrite <- (observed_visible quiet_event output_of (events m0)) in H3
    by (intros e He; apply output_of_hidden, quiet_callback_event, He).
  rewrite <- (observed_visible quiet_event output_of (events m1)) in H4
    by (intros e He; apply output_of_hidden, quiet_callback_event, He).
  unfold stdout_writes. split; assumption.
Qed.

(** ** C9: the askpass callbacks *)

(** [strings.Trim] takes bytes of the cutset away at both ends, and all
    of them. *)
Lemma strings_TrimLeft_spec (s cutset : string) :
  (exists pre, s = (pre ++ strings_TrimLeft s cutset)%string /\
               all_in_cutset cutset pre = true)
  /\ outside cutset (first_char (strings_TrimLeft s cutset)).
Proof.
  induction s as [|c s [[pre [Hs Hpre]] Hfirst]]; cbn.
  - split; [exists EmptyString; split; reflexivity | exact I].
  - destruct (in_cutset cutset c) eqn:Hc.
    + split; [|exact Hfirst]. exists (String c pre). cbn.
      rewrite Hc, Hpre. split; [now rewrite <- Hs | reflexivity].
    + split; [exists EmptyString; split; reflexivity | exact Hc].
Qed.

Lemma strings_TrimRight_spec (s cutset : string) :
  (exists post, s = (strings_TrimRight s cutset ++ post)%string /\
                all_in_cutset cutset post = true)
  /\ outside cutset (last_char (strings_TrimRight s cutset))
  /\ (outside cutset (first_char s) ->
      outside cutset (first_char (strings_TrimRight s cutset))).
Proof.
  induction s as [|c s [[post [Hs Hpost]] [Hlast _]]]; cbn.
  - split; [exists EmptyString; split; reflexivity | split; [exact I | trivial]].
  - destruct (strings_TrimRight s cutset) as [|c' r] eqn:Hr.
    + cbn in Hs. subst post.
      destruct (in_cutset cutset c) eqn:Hc; cbn.
      * split; [|split; [exact I | trivial]].
        exists (String c s). cbn. rewrite Hc, Hpost. split; reflexivity.
      * split; [|split; [exact Hc | trivial]].
        exists s. split; [reflexivity | exact Hpost].
    + split; [|split; [exact Hlast | trivial]].
      exists post. cbn. rewrite Hs at 1. split; [reflexivity | exact Hpost].
Qed.

Lemma strings_Trim_spec (s cutset : string) :
  (exists pre post,
     s = (pre ++ strings_Trim s cutset ++ post)%string /\
     all_in_cutset cutset pre = true /\ all_in_cutset cutset post = true)
  /\ outside cutset (first_char (strings_Trim s cutset))
  /\ outside cutset (last_char (strings_Trim s cutset)).
Proof.
  unfold strings_Trim.
  destruct (strings_TrimLeft_spec s cutset) as [[pre [Hs Hpre]] Hfirst].
  destruct (strings_TrimRight_spec (strings_TrimLeft s cutset) cutset)
    as [[post [Ht Hpost]] [Hlast Hkeep]].
  split; [|split; [apply Hkeep, Hfirst | exact Hlast]].
  exists pre, post. split; [|split; assumption].
  rewrite <- Ht. exact Hs.
Qed.

(** The claim fails on both variants.  The callback of part_001 returns
    what the program printed, line feed included; the callback of part_002
    also drops the line feed in front. *)
Lemma askpass_output_not_trimmed_as_claimed :
  outcome (Part001.getPinFunc_askpass
             (with_askpass "/lib/cryptsetup/askpass" default_flags)
             (sample_world "Some key" MessageType_Success) pin_prompt)
    = Val (bytes_of_string ("1234" ++ nl)%string, None)
  /\ spec_trim_simple (bytes_of_string ("1234" ++ nl)%string)
     = bytes_of_string "1234"
  /\ bytes_of_string ("1234" ++ nl)%string
     <> spec_trim_simple (bytes_of_string ("1234" ++ nl)%string)
  /\ outcome (Part002.getPinFunc_askpass default_flags
                (sample_world "Some key" MessageType_Success)
                "/lib/cryptsetup/askpass" pin_prompt)
     = Val (bytes_of_string "1234", None)
  /\ spec_trim_pty (nl ++ "1234" ++ String CR nl)%string
     = bytes_of_string (nl ++ "1234")%string
  /\ bytes_of_string "1234"
     <> spec_trim_pty (nl ++ "1234" ++ String CR nl)%string.
Proof.
  repeat split; try (vm_compute; reflexivity); vm_compute; discriminate.
Qed.

(** C9, amended. The callback of part_001 spawns the configured program
    with the prompt title as its single argument, on the caller's standard
    input and standard error, and returns the program's captured standard
    output as it is, untrimmed, with the error of the call.  The callback of
    part_002 starts the same command behind a pseudo-terminal, its standard
    output captured in a buffer, and returns the captured text with all
    leading and all trailing line feeds and carriage returns removed (or the
    error of [pty.Start]): what it takes away in front and behind are line
    feeds and carriage returns, and what it returns neither starts nor ends
    with one. *)
Theorem askpass_callbacks_return (f : Flags) (w : World) (path : string)
    (p : Prompt) :
  let simple :=
    mkCmd (askpassPathParameter f) [askpassPathParameter f; title p]
          (Some os_Stdin) None (Some os_Stderr) in
  let relayed := mkCmd path [path; title p] None (Some Buffer) None in
  let cutset := String LF (String CR EmptyString) in
  outcome (Part001.getPinFunc_askpass f w p) = Val (cmd_Output w simple)
  /\ In (EvCmdOutput simple) (events (Part001.getPinFunc_askpass f w p))
  /\ In (EvPtyStart relayed) (events (Part002.getPinFunc_askpass f w path p))
  /\ outcome (Part002.getPinFunc_askpass f w path p)
     = Val (match pty_Start w relayed with
            | inl err => ([], Some err)
            | inr (_, captured) =>
                (bytes_of_string
                   (strings_TrimRight (strings_TrimLeft captured cutset) cutset),
                 None)
            end)
  /\ forall captured,
       let trimmed :=
         strings_TrimRight (strings_TrimLeft captured cutset) cutset in
       (exists pre post,
          captured = (pre ++ trimmed ++ post)%string /\
          all_in_cutset cutset pre = true /\
          all_in_cutset cutset post = true)
       /\ outside cutset (first_char trimmed)
       /\ outside cutset (last_char trimmed).
Proof.
  cbv zeta. unfold Part001.getPinFunc_askpass, Part002.getPinFunc_askpass.
  repeat split.
  - destruct (verboseFlag f); reflexivity.
  - destruct (verboseFlag f); cbn; auto.
  - destruct (verboseFlag f); cbn;
      destruct (pty_Start w _) as [err|[relayed captured]]; cbn;
      destruct (terminal_MakeRaw w); cbn; auto.
  - destruct (verboseFlag f); cbn;
      destruct (pty_Start w _) as [err|[relayed captured]]; cbn;
      destruct (terminal_MakeRaw w); reflexivity.
  - apply strings_Trim_spec.
  - apply strings_Trim_spec.
  - apply strings_Trim_spec.
Qed.

(** ** Hex text in, hex text out *)

Lemma string_of_bytes_of_string (s : string) :
  string_of_bytes (bytes_of_string s) = s.
Proof. apply string_of_list_byte_of_string. Qed.

Lemma even_of_mod_32 (n : nat) : n mod 32 = 0 -> Nat.even n = true.
Proof.
  intros H. apply Nat.even_spec. exists (16 * (n / 32)).
  pose proof (Nat.div_mod_eq n 32). lia.
Qed.

(** A text whose length is a multiple of 32 passes the block under
    [--hex] as it is. *)
Lemma normalize_aligned (S : bytes) :
  List.length S mod 32 = 0 -> decrypt_normalize true S = Payload S.
Proof.
  intros H. rewrite decrypt_normalize_eq. cbn [dataHexed_init negb].
  rewrite string_of_bytes_length, (even_of_mod_32 _ H).
  rewrite (proj2 (pad_chars_zero _) H).
  change (zero_pairs (0 / 2)) with EmptyString.
  now rewrite string_app_empty_r, bytes_of_string_of_bytes.
Qed.

Lemma normalize_payload_aligned (h : bool) (S p : bytes) :
  decrypt_normalize h S = Payload p -> List.length p mod 32 = 0.
Proof.
  rewrite decrypt_normalize_eq. cbv zeta.
  destruct (Nat.even (String.length (dataHexed_init h S))) eqn:E;
    [|discriminate].
  intros [= <-].
  rewrite bytes_of_string_length, string_length_app, zero_pairs_length.
  apply padded_length_mod_32. now apply even_mod_2.
Qed.

(** X1. Under [--decrypt], giving the hex text of [S] with [--hex] hands
    the device the same payload as giving [S] itself without [--hex]; and
    the hex text of a result of whole 16-byte blocks, which is what
    [--encrypt --hex] prints for such a result, goes to the device
    unchanged. *)
Theorem hex_and_raw_input_agree (S : bytes) :
  decrypt_normalize true (bytes_of_string (hex_EncodeToString S))
  = decrypt_normalize false S
  /\ (List.length S mod 16 = 0 ->
      decrypt_normalize true (bytes_of_string (hex_EncodeToString S))
      = Payload (bytes_of_string (hex_EncodeToString S))).
Proof.
  split.
  - unfold decrypt_normalize, dataHexed_init. cbn [negb].
    now rewrite string_of_bytes_of_string.
  - intros H. apply normalize_aligned.
    rewrite bytes_of_string_length, hex_EncodeToString_length.
    change 32 with (2 * 16). rewrite Nat.Div0.mul_mod_distr_l, H. reflexivity.
Qed.

(** X2. The texts the block leaves unchanged under [--hex] are exactly
    those whose length is a multiple of 32, and every payload the block
    produces is one of them: normalizing twice is normalizing once. *)
Theorem normalization_fixed_points (h : bool) (S : bytes) :
  (decrypt_normalize true S = Payload S <-> List.length S mod 32 = 0)
  /\ match decrypt_normalize h S with
     | Payload p => decrypt_normalize true p = Payload p
     | _ => True
     end.
Proof.
  split; [split|].
  - apply normalize_payload_aligned.
  - apply normalize_aligned.
  - destruct (decrypt_normalize h S) as [p| |] eqn:E; try exact I.
    apply normalize_aligned. exact (normalize_payload_aligned _ _ _ E).
Qed.

Lemma dataHexed_init_length (h : bool) (S : bytes) :
  String.length (dataHexed_init h S)
  = if h then List.length S else 2 * List.length S.
Proof.
  destruct h; cbn [dataHexed_init negb];
    [apply string_of_bytes_length | apply hex_EncodeToString_length].
Qed.

Lemma firstn_bytes_of_string_app (s t : string) :
  firstn (String.length s) (bytes_of_string (s ++ t)) = bytes_of_string s.
Proof.
  rewrite bytes_of_string_app, <- (bytes_of_string_length s).
  rewrite firstn_app, Nat.sub_diag, firstn_all. cbn [firstn].
  apply app_nil_r.
Qed.

(** X3. Whatever the hex flag, the payload of the block starts with the
    hex text, is less than 32 bytes longer and has the least length that
    is a multiple of 32; it is empty exactly for the empty input, which is
    no error.  The block gives no payload only under [--hex] for an input
    of odd length, and the loop never runs out. *)
Theorem payload_least_multiple (h : bool) (S : bytes) :
  match decrypt_normalize h S with
  | Payload p =>
      let n := String.length (dataHexed_init h S) in
      n <= List.length p < n + 32
      /\ List.length p mod 32 = 0
      /\ firstn n p = bytes_of_string (dataHexed_init h S)
      /\ (p = [] <-> S = [])
  | OddLength => h = true /\ Nat.odd (List.length S) = true
  | Diverges => False
  end.
Proof.
  pose proof (decrypt_normalize_eq h S) as E. cbv zeta in E.
  pose proof (dataHexed_init_length h S) as Hn.
  set (s := dataHexed_init h S) in *.
  destruct (Nat.even (String.length s)) eqn:Heven; rewrite E.
  - cbv zeta.
    pose proof (even_mod_2 _ Heven) as Hm.
    pose proof (pad_chars_bound (String.length s)) as Hb.
    pose proof (pad_chars_even _ Hm) as He.
    pose proof (Nat.div_mod_eq (pad_chars (String.length s)) 2) as Hd.
    assert (Hlen : List.length
                     (bytes_of_string
                        (s ++ zero_pairs (pad_chars (String.length s) / 2)))
                   = String.length s + pad_chars (String.length s)).
    { rewrite bytes_of_string_length, string_length_app, zero_pairs_length.
      lia. }
    split; [lia|]. split.
    { rewrite bytes_of_string_length, string_length_app, zero_pairs_length.
      now apply padded_length_mod_32. }
    split; [apply firstn_bytes_of_string_app|].
    split.
    + intros Hp. rewrite Hp in Hlen. cbn [List.length] in Hlen.
      assert (Hz : String.length s = 0) by lia.
      rewrite Hz in Hn. destruct S as [|b S]; [reflexivity|].
      destruct h; cbn [List.length] in Hn; lia.
    + intros ->. subst s. destruct h; reflexivity.
  - destruct h.
    + split; [reflexivity|]. rewrite <- Hn. now apply even_odd_false.
    + rewrite Hn in Heven. rewrite Nat.even_mul in Heven. discriminate.
Qed.

Lemma byte_of_nibbles (v : byte) :
  Byte.to_N v
  = (16 * nibble_of (hextable_at (N.shiftr (Byte.to_N v) 4))
     + nibble_of (hextable_at (N.land (Byte.to_N v) 15)))%N.
Proof. destruct v; reflexivity. Qed.

Lemma hex_EncodeToString_injective (a : bytes) : forall b,
  hex_EncodeToString a = hex_EncodeToString b -> a = b.
Proof.
  induction a as [|v a IH]; intros [|v' b] H; try discriminate H;
    [reflexivity|].
  cbn [hex_EncodeToString] in H.
  assert (Hhi : hextable_at (N.shiftr (Byte.to_N v) 4)
                = hextable_at (N.shiftr (Byte.to_N v') 4)) by congruence.
  assert (Hlo : hextable_at (N.land (Byte.to_N v) 15)
                = hextable_at (N.land (Byte.to_N v') 15)) by congruence.
  assert (Hrest : hex_EncodeToString a = hex_EncodeToString b) by congruence.
  f_equal; [|now apply IH].
  pose proof (byte_of_nibbles v) as Ev. pose proof (byte_of_nibbles v') as Ev'.
  rewrite Hhi, Hlo, <- Ev' in Ev.
  assert (Some v = Some v') as [= ->]; [|reflexivity].
  rewrite <- (Byte.of_to_N v), <- (Byte.of_to_N v'). now rewrite Ev.
Qed.

Lemma bytes_of_string_injective (s t : string) :
  bytes_of_string s = bytes_of_string t -> s = t.
Proof.
  intros H. rewrite <- (string_of_bytes_of_string s),
    <- (string_of_bytes_of_string t). now rewrite H.
Qed.

Lemma string_of_bytes_injective (a b : bytes) :
  string_of_bytes a = string_of_bytes b -> a = b.
Proof.
  intros H. rewrite <- (bytes_of_string_of_bytes a),
    <- (bytes_of_string_of_bytes b). now rewrite H.
Qed.

(** X4. What a run prints determines what the device returned: under
    [--encrypt --hex] the printed text is the lower-case hex text of the
    result, twice as long, and different results give different texts;
    otherwise (also under [--decrypt --hex]) the result is printed byte for
    byte. *)
Theorem printed_result_determines_result (f : Flags) (r1 r2 : bytes) :
  (printed f r1 = printed f r2 <-> r1 = r2)
  /\ String.length (printed f r1)
     = (if encryptFlag f && hexFlag f then 2 * List.length r1
        else List.length r1)
  /\ (if encryptFlag f && hexFlag f
      then Forall (fun b => is_lower_hex_byte b = true)
             (bytes_of_string (printed f r1))
      else bytes_of_string (printed f r1) = r1).
Proof.
  unfold printed. split; [split|split].
  - intros H. apply string_of_bytes_injective in H.
    destruct (encryptFlag f && hexFlag f); [|exact H].
    now apply hex_EncodeToString_injective, bytes_of_string_injective.
  - now intros ->.
  - rewrite string_of_bytes_length.
    destruct (encryptFlag f && hexFlag f); [|reflexivity].
    now rewrite bytes_of_string_length, hex_EncodeToString_length.
  - destruct (encryptFlag f && hexFlag f).
    + rewrite bytes_of_string_of_bytes. apply hex_EncodeToString_lower_hex.
    + apply bytes_of_string_of_bytes.
Qed.

(** ** Looking for an executable *)

Lemma stat_in_dirs_eq w name dirs :
  Part002.stat_in_dirs w name dirs
  = (map EvStat (upto_first (Part002.stat_ok w)
                   (map (fun dir => path_Join w dir name) dirs)),
     Val (existsb (Part002.stat_ok w)
            (map (fun dir => path_Join w dir name) dirs))).
Proof.
  induction dirs as [|dir dirs IH]; [reflexivity|].
  cbn [Part002.stat_in_dirs map upto_first existsb].
  destruct (Part002.stat_ok w (path_Join w dir name)); [reflexivity|].
  rewrite IH. reflexivity.
Qed.

Lemma strings_Split_nonempty (s : string) (sep : ascii) :
  strings_Split s sep <> [].
Proof.
  destruct s as [|c s]; [discriminate|]. cbn [strings_Split].
  destruct (Ascii.eqb c sep); [discriminate|].
  destruct (strings_Split s sep); discriminate.
Qed.

Lemma upto_first_nonempty {A} (p : A -> bool) (l : list A) :
  l <> [] -> upto_first p l <> [].
Proof.
  destruct l as [|x l]; [congruence|]. cbn. destruct (p x); discriminate.
Qed.

Lemma checkIfExecutableExists_eq (w : World) (name : string) :
  Part002.checkIfExecutableExists w name
  = match name with
    | EmptyString => ([], Val false)
    | String c _ =>
        if Ascii.eqb c "/"
        then ([EvStat name], Val (Part002.stat_ok w name))
        else (EvGetenv "PATH"
                :: map EvStat (upto_first (Part002.stat_ok w)
                                 (candidates w name)),
              Val (existsb (Part002.stat_ok w) (candidates w name)))
    end.
Proof.
  destruct name as [|c name]; [reflexivity|].
  cbn [Part002.checkIfExecutableExists].
  destruct (Ascii.eqb c "/"); [reflexivity|].
  unfold candidates. rewrite stat_in_dirs_eq. reflexivity.
Qed.

Lemma stats_map_EvStat (l : list string) : stats (map EvStat l) = l.
Proof.
  unfold stats. induction l as [|n l IH]; [reflexivity|].
  cbn [map flat_map stat_of app]. now rewrite IH.
Qed.

(** X5. [checkIfExecutableExists]: the empty name is not found, and
    nothing is looked at for it; a name that starts with a slash is found
    exactly when [os.Stat] of it succeeds, and [PATH] is not read; any other
    name is found exactly when [os.Stat] succeeds for [path.Join(dir, name)]
    with some entry [dir] of [PATH], the entries being tried in their order
    up to the first success and no further.  A name that is not empty is
    looked for at least once, even when [PATH] is empty. *)
Theorem checkIfExecutableExists_probes (w : World) (name : string) :
  Part002.checkIfExecutableExists w name
  = match name with
    | EmptyString => ([], Val false)
    | String c _ =>
        if Ascii.eqb c "/"
        then ([EvStat name], Val (Part002.stat_ok w name))
        else (EvGetenv "PATH"
                :: map EvStat (upto_first (Part002.stat_ok w)
                                 (candidates w name)),
              Val (existsb (Part002.stat_ok w) (candidates w name)))
    end
  /\ (name <> EmptyString ->
      stats (events (Part002.checkIfExecutableExists w name)) <> []).
Proof.
  split; [apply checkIfExecutableExists_eq|].
  intros Hname. rewrite checkIfExecutableExists_eq.
  destruct name as [|c name]; [congruence|].
  destruct (Ascii.eqb c "/"); [discriminate|].
  cbn [events fst]. unfold stats. cbn [flat_map stat_of app].
  fold (stats (map EvStat (upto_first (Part002.stat_ok w)
                             (candidates w (String c name))))).
  rewrite stats_map_EvStat.
  apply upto_first_nonempty. unfold candidates.
  destruct (strings_Split (os_Getenv w "PATH") ":") eqn:Es;
    [now apply strings_Split_nonempty in Es | discriminate].
Qed.

Lemma strings_Split_piece (sep : ascii) (d rest : string) :
  free_of sep d = true ->
  strings_Split (d ++ String sep rest) sep = d :: strings_Split rest sep.
Proof.
  induction d as [|c d IH]; intros Hd.
  - cbn [String.append strings_Split]. now rewrite Ascii.eqb_refl.
  - cbn [free_of] in Hd. apply andb_true_iff in Hd. destruct Hd as [Hc Hd].
    cbn [String.append strings_Split]. rewrite (IH Hd).
    apply negb_true_iff in Hc. now rewrite Hc.
Qed.

Lemma strings_Split_single (sep : ascii) (d : string) :
  free_of sep d = true -> strings_Split d sep = [d].
Proof.
  induction d as [|c d IH]; intros Hd; [reflexivity|].
  cbn [free_of] in Hd. apply andb_true_iff in Hd. destruct Hd as [Hc Hd].
  cbn [strings_Split]. rewrite (IH Hd).
  apply negb_true_iff in Hc. now rewrite Hc.
Qed.

(** [strings.Split] gives back the pieces that were joined. *)
Lemma strings_Split_concat (sep : ascii) (dirs : list string) :
  dirs <> [] ->
  Forall (fun d => free_of sep d = true) dirs ->
  strings_Split (String.concat (String sep EmptyString) dirs) sep = dirs.
Proof.
  intros Hne Hfree.
  induction Hfree as [|d dirs Hd Hdirs IH]; [congruence|].
  destruct dirs as [|d' dirs].
  - cbn [String.concat]. now apply strings_Split_single.
  - change (String.concat (String sep EmptyString) (d :: d' :: dirs))
      with (d ++ String sep
                   (String.concat (String sep EmptyString) (d' :: dirs)))%string.
    rewrite (strings_Split_piece sep d _ Hd). f_equal.
    apply IH. discriminate.
Qed.

(** X6. With [PATH] holding the directories [dirs] joined by colons, a
    relative name is looked for in [path.Join(dir, name)] for the
    directories one after the other, in the order of [PATH], until
    [os.Stat] succeeds; it is found exactly when it succeeds for one. *)
Theorem path_entries_probed_in_order (w : World) (name : string)
    (dirs : list string)
    (Hname : is_relative name = true)
    (Hdirs : dirs <> [])
    (Hfree : Forall (fun d => free_of ":" d = true) dirs)
    (Hpath : os_Getenv w "PATH" = String.concat ":" dirs) :
  let tried := map (fun dir => path_Join w dir name) dirs in
  stats (events (Part002.checkIfExecutableExists w name))
  = upto_first (Part002.stat_ok w) tried
  /\ outcome (Part002.checkIfExecutableExists w name)
     = Val (existsb (Part002.stat_ok w) tried)
  /\ (outcome (Part002.checkIfExecutableExists w name) = Val true <->
      exists dir, In dir dirs /\ os_Stat w (path_Join w dir name) = None).
Proof.
  cbv zeta.
  assert (Hc : candidates w name = map (fun dir => path_Join w dir name) dirs).
  { unfold candidates. rewrite Hpath.
    now rewrite (strings_Split_concat ":" dirs Hdirs Hfree). }
  rewrite checkIfExecutableExists_eq.
  destruct name as [|c name]; [discriminate Hname|].
  cbn [is_relative] in Hname. apply negb_true_iff in Hname. rewrite Hname.
  rewrite Hc. cbn [events outcome fst snd].
  split; [|split].
  - unfold stats. cbn [flat_map stat_of app]. apply stats_map_EvStat.
  - reflexivity.
  - split.
    + intros [= H]. apply existsb_exists in H. destruct H as [p [Hin Hp]].
      apply in_map_iff in Hin. destruct Hin as [dir [<- Hin]].
      exists dir. split; [exact Hin|].
      unfold Part002.stat_ok in Hp.
      destruct (os_Stat w (path_Join w dir (String c name)));
        [discriminate Hp | reflexivity].
    + intros [dir [Hin Hstat]]. f_equal. apply existsb_exists.
      exists (path_Join w dir (String c name)). split.
      * apply in_map_iff. exists dir. split; [reflexivity | exact Hin].
      * unfold Part002.stat_ok. now rewrite Hstat.
Qed.

Lemma path_entries_probed_in_order_witness :
  is_relative "systemd-ask-password" = true
  /\ os_Getenv (sample_world "Some key" MessageType_Success) "PATH"
     = String.concat ":" ["/usr/bin"; "/bin"]
  /\ stats (events (Part002.checkIfExecutableExists
                      (sample_world "Some key" MessageType_Success)
                      "systemd-ask-password"))
     = ["/usr/bin/systemd-ask-password"; "/bin/systemd-ask-password"]
  /\ outcome (Part002.checkIfExecutableExists
                (sample_world "Some key" MessageType_Success)
                "systemd-ask-password")
     = Val false.
Proof.
  split; [reflexivity|]. split; [reflexivity|].
  destruct (path_entries_probed_in_order
              (sample_world "Some key" MessageType_Success)
              "systemd-ask-password" ["/usr/bin"; "/bin"])
    as (Hstats & Hout & _).
  - reflexivity.
  - discriminate.
  - repeat constructor.
  - reflexivity.
  - split; [exact Hstats | exact Hout].
Defined.

(** ** Askpass discovery, in full *)

Lemma discover_askpass_eq (f : Flags) (w : World) :
  Part002.discover_askpass f w
  = if (askpassPathParameter f =? EmptyString)%string then
      if Part002.stat_ok w Part002.cryptsetupAskpassPath
      then ([EvStat Part002.cryptsetupAskpassPath],
            Val Part002.cryptsetupAskpassPath)
      else
        let probes :=
          EvStat Part002.cryptsetupAskpassPath :: EvGetenv "PATH"
          :: map EvStat (upto_first (Part002.stat_ok w)
                           (candidates w Part002.systemdAskpassPath)) in
        if existsb (Part002.stat_ok w)
             (candidates w Part002.systemdAskpassPath)
        then (probes, Val Part002.systemdAskpassPath)
        else (probes ++ [EvWrite os_Stderr (no_askpass_message ++ nl)%string],
              Stop (Exit 6))
    else ([], Val (askpassPathParameter f)).
Proof.
  unfold Part002.discover_askpass.
  destruct (askpassPathParameter f =? EmptyString)%string; [|reflexivity].
  rewrite !checkIfExecutableExists_eq.
  unfold Part002.cryptsetupAskpassPath at 1.
  unfold Part002.systemdAskpassPath at 1.
  cbv beta iota. change (Ascii.eqb "/" "/") with true.
  change (Ascii.eqb "s" "/") with false. cbv beta iota.
  change "/lib/cryptsetup/askpass" with Part002.cryptsetupAskpassPath.
  change "systemd-ask-password" with Part002.systemdAskpassPath.
  destruct (Part002.stat_ok w Part002.cryptsetupAskpassPath); [reflexivity|].
  cbv zeta.
  destruct (existsb _ _); cbn [bind app ret fmt_Fprintln emit os_Exit halt];
    rewrite ?app_nil_r; reflexivity.
Qed.

Lemma flat_map_map_EvStat {X} (obs : Event -> list X) (l : list string) :
  (forall n, obs (EvStat n) = []) -> flat_map obs (map EvStat l) = [].
Proof.
  intros H. induction l as [|n l IH]; [reflexivity|].
  cbn [map flat_map]. now rewrite H, IH.
Qed.

(** X7. Askpass discovery in part_002: a path given with [-p] is taken as
    it is and nothing is looked at, not even whether the path exists;
    without [-p] the cryptsetup program is taken when [os.Stat] of its
    absolute path succeeds, and then [PATH] is not read; else
    systemd-ask-password when it is found in a directory of [PATH]; else the
    process exits with code 6. *)
Theorem askpass_discovery_order (f : Flags) (w : World) :
  let found_systemd :=
    existsb (Part002.stat_ok w) (candidates w Part002.systemdAskpassPath) in
  outcome (Part002.discover_askpass f w)
  = (if (askpassPathParameter f =? EmptyString)%string then
       if Part002.stat_ok w Part002.cryptsetupAskpassPath
       then Val Part002.cryptsetupAskpassPath
       else if found_systemd then Val Part002.systemdAskpassPath
            else Stop (Exit 6)
     else Val (askpassPathParameter f))
  /\ stats (events (Part002.discover_askpass f w))
     = (if (askpassPathParameter f =? EmptyString)%string then
          Part002.cryptsetupAskpassPath
          :: (if Part002.stat_ok w Part002.cryptsetupAskpassPath then []
              else upto_first (Part002.stat_ok w)
                     (candidates w Part002.systemdAskpassPath))
        else [])
  /\ getenvs (events (Part002.discover_askpass f w))
     = (if (askpassPathParameter f =? EmptyString)%string
           && negb (Part002.stat_ok w Part002.cryptsetupAskpassPath)
        then ["PATH"] else []).
Proof.
  cbv zeta. rewrite discover_askpass_eq.
  destruct (askpassPathParameter f =? EmptyString)%string;
    [|repeat split; reflexivity].
  destruct (Part002.stat_ok w Part002.cryptsetupAskpassPath);
    [repeat split; reflexivity|].
  cbv zeta. cbn [andb negb].
  destruct (existsb _ _); cbn [outcome events fst snd];
    unfold getenvs; cbn [flat_map stat_of getenv_of app];
    rewrite ?flat_map_app; cbn [flat_map stat_of getenv_of app];
    rewrite ?app_nil_r;
    rewrite (flat_map_map_EvStat getenv_of) by reflexivity;
    (split; [reflexivity|]); (split; [|reflexivity]);
    unfold stats; cbn [flat_map stat_of app];
    rewrite ?flat_map_app; cbn [flat_map stat_of app]; rewrite ?app_nil_r;
    f_equal; apply stats_map_EvStat.
Qed.

(** X8. On a machine where neither askpass program is found, a run of
    part_002 that has its mode and no [-p] ends with exit code 6 and the
    advice on standard error, whatever the other flags say, [-P] among
    them: nothing of the device is called, nothing is read, nothing is
    written to standard output. *)
Theorem no_askpass_program_exits (f : Flags) (w : World)
    (Hhelp : helpFlag f = false)
    (Hmode : encryptFlag f || decryptFlag f = true)
    (Hpath : askpassPathParameter f = EmptyString)
    (Hcryptsetup : Part002.stat_ok w Part002.cryptsetupAskpassPath = false)
    (Hsystemd : existsb (Part002.stat_ok w)
                  (candidates w Part002.systemdAskpassPath) = false) :
  outcome (Part002.main f w) = Stop (Exit 6)
  /\ Forall (fun e => device_call e = false) (events (Part002.main f w))
  /\ reads (events (Part002.main f w)) = []
  /\ stdout_writes (events (Part002.main f w)) = []
  /\ In (EvWrite os_Stderr (no_askpass_message ++ nl)%string)
        (events (Part002.main f w)).
Proof.
  assert (Hm : negb (encryptFlag f) && negb (decryptFlag f) = false)
    by (destruct (encryptFlag f), (decryptFlag f); try reflexivity;
        discriminate Hmode).
  unfold Part002.main. rewrite Hhelp, Hm, discover_askpass_eq, Hpath.
  cbn [String.eqb when]. rewrite Hcryptsetup. cbv zeta. rewrite Hsystemd.
  cbn [bind ret emit app outcome events fst snd].
  split; [reflexivity|]. split; [|split; [|split]].
  - repeat (constructor; [reflexivity|]).
    apply Forall_app. split; [|repeat constructor].
    apply Forall_map, Forall_forall. reflexivity.
  - unfold reads. cbn [flat_map read_of app]. rewrite flat_map_app.
    now rewrite flat_map_map_EvStat.
  - unfold stdout_writes. cbn [flat_map stdout_of app]. rewrite flat_map_app.
    now rewrite flat_map_map_EvStat.
  - do 3 right. apply in_or_app. right. left. reflexivity.
Qed.

Lemma no_askpass_program_exits_witness :
  helpFlag (with_pinentry (with_mode false true true default_flags)) = false
  /\ askpassPathParameter
       (with_pinentry (with_mode false true true default_flags)) = EmptyString
  /\ outcome (Part002.main
                (with_pinentry (with_mode false true true default_flags))
                (sample_world "abc" MessageType_Success)) = Stop (Exit 6)
  /\ reads (events (Part002.main
                      (with_pinentry (with_mode false true true default_flags))
                      (sample_world "abc" MessageType_Success))) = [].
Proof.
  split; [reflexivity|]. split; [reflexivity|].
  destruct (no_askpass_program_exits
              (with_pinentry (with_mode false true true default_flags))
              (sample_world "abc" MessageType_Success))
    as (Hout & _ & Hreads & _); try reflexivity.
  split; [exact Hout | exact Hreads].
Defined.

(** ** The flag checks *)

(** X9. [--help] stops every revision after the usage text, with exit
    code 22 in main.go and 0 in part_001 and part_002, whatever else is on
    the command line.  Without [--help], a run with neither [--encrypt] nor
    [--decrypt] writes its complaint to standard error, prints the usage
    text and leaves with exit code 22.  In both cases nothing else happens:
    no lookup, no read, no device.  Every other run selects its mode. *)
Theorem usage_errors (f : Flags) (w : World) :
  if helpFlag f then
    MainGo.main f w = ([EvUsage], Stop (Exit 22))
    /\ Part001.main f w = ([EvUsage], Stop (Exit 0))
    /\ Part002.main f w = ([EvUsage], Stop (Exit 0))
  else if negb (encryptFlag f) && negb (decryptFlag f) then
    let stopped :=
      ([EvWrite os_Stderr ((no_mode_message ++ nl) ++ nl)%string; EvUsage],
       Stop (Exit 22)) in
    MainGo.main f w = stopped /\ Part001.main f w = stopped
    /\ Part002.main f w = stopped
  else
    In (EvStep StMode) (events (MainGo.main f w))
    /\ In (EvStep StMode) (events (Part001.main f w))
    /\ In (EvStep StMode) (events (Part002.main f w)).
Proof.
  unfold MainGo.main, Part001.main, Part002.main.
  destruct (helpFlag f); [repeat split|].
  destruct (negb (encryptFlag f) && negb (decryptFlag f)); [repeat split|].
  cbn [when]. repeat split; rewrite !events_bind; cbn; auto.
Qed.

(** ** More rules for the visible events of a run *)

Lemma run_device_hidden_only hidden {R} getPin getConfirm (d : Device R) :
  (forall p, hidden_only hidden (events (getPin p))) ->
  (forall p, hidden_only hidden (events (getConfirm p))) ->
  hidden_only hidden (events (run_device getPin getConfirm d)).
Proof.
  intros Hpin Hconfirm.
  induction d as [r|p k IH|p k IH]; cbn [run_device].
  - constructor.
  - apply hidden_only_bind; [apply Hpin | exact IH].
  - apply hidden_only_bind; [apply Hconfirm | exact IH].
Qed.

(** Discovery looks at files and at [PATH] and writes to standard error. *)
Lemma discover_askpass_hidden_only hidden f w :
  (forall name, hidden (EvStat name) = true) ->
  (forall name, hidden (EvGetenv name) = true) ->
  (forall s, hidden (EvWrite os_Stderr s) = true) ->
  hidden_only hidden (events (Part002.discover_askpass f w)).
Proof.
  intros Hstat Hgetenv Hwrite.
  rewrite discover_askpass_eq. unfold hidden_only.
  destruct (askpassPathParameter f =? EmptyString)%string; [|constructor].
  destruct (Part002.stat_ok w Part002.cryptsetupAskpassPath);
    [repeat constructor; apply Hstat|].
  cbv zeta.
  destruct (existsb _ _); cbn [events fst];
    (constructor; [apply Hstat|]); (constructor; [apply Hgetenv|]);
    try (apply Forall_app; split; [|repeat constructor; apply Hwrite]);
    apply Forall_map, Forall_forall; intros; apply Hstat.
Qed.

Lemma wp_discover_probes hidden f w Q :
  (forall name, hidden (EvStat name) = true) ->
  (forall name, hidden (EvGetenv name) = true) ->
  (forall s, hidden (EvWrite os_Stderr s) = true) ->
  (outcome (Part002.discover_askpass f w) = Stop (Exit 6) ->
   Q [] (Stop (Exit 6))) ->
  (forall path, outcome (Part002.discover_askpass f w) = Val path ->
                Q [] (Val path)) ->
  wp hidden (Part002.discover_askpass f w) Q.
Proof.
  intros Hstat Hgetenv Hwrite Hexit Hval. unfold wp.
  rewrite (visible_hidden_only _ _
             (discover_askpass_hidden_only hidden f w Hstat Hgetenv Hwrite)).
  destruct (discover_askpass_cases f w) as [_ [E | [path E]]]; rewrite E; auto.
Qed.

(** A deferred call that shows: it runs when the body returns or panics. *)
Lemma wp_defer_emit hidden {A} (e : Event) (body : IO A) Q :
  hidden e = false ->
  wp hidden body (fun v r =>
    match r with
    | Val _ | Stop (Panic _) => Q (v ++ [e]) r
    | _ => Q v r
    end) ->
  wp hidden (defer (emit e) body) Q.
Proof.
  unfold wp. intros He.
  assert (Hv : visible hidden [e] = [e])
    by (unfold visible; cbn [filter]; now rewrite He).
  destruct body as [t [a|[code|pv|]]];
    cbn [defer emit events outcome fst snd]; try exact (fun H => H);
    rewrite visible_app, Hv; exact (fun H => H).
Qed.

Lemma visible_nothing_hidden (t : list Event) :
  visible nothing_hidden t = t.
Proof.
  unfold visible. induction t as [|e t IH]; [reflexivity|].
  cbn [filter]. change (negb (nothing_hidden e)) with true. cbv iota.
  now rewrite IH.
Qed.

(** The events of a callback are hidden: by cases on what it meets. *)
Ltac callbacks_hidden :=
  intro;
  try match goal with |- context [if ?b then _ else _] => destruct b end;
  unfold getConfirmFunc, getPinFunc_pinentry, Part001.getPinFunc_askpass,
    Part002.getPinFunc_askpass;
  try match goal with |- context [when (verboseFlag ?f) _] =>
        destruct (verboseFlag f)
      end;
  cbn [when];
  try match goal with |- context [pty_Start ?w ?c] =>
        destruct (pty_Start w c) as [?|[? ?]];
        destruct (terminal_MakeRaw w)
      end;
  repeat constructor.

(** One step of the run, for any choice of the hidden events. *)
Ltac wp_step :=
  lazymatch goal with
  | |- wp _ (defer (emit _) _) _ =>
      first [ apply wp_defer_hidden; [hidden_side | hidden_side |]
            | apply wp_defer_emit; [reflexivity|] ]
  | |- wp _ (run_device _ _ _) _ =>
      first
      [ wp_device
      | apply wp_hidden;
        [ apply run_device_hidden_only; callbacks_hidden
        | apply run_device_returns; callback_side
        | intro ] ]
  | |- wp _ (Part002.discover_askpass _ _) _ =>
      apply wp_discover_probes;
      [ intro; reflexivity | intro; reflexivity | intro; reflexivity
      | intro | intros ? ? ]
  | _ => wp_head
  end.

Ltac wp_walk :=
  repeat (wp_step; cbv beta iota; cbn [app negb andb orb] in *;
          try discriminate).

(** ** How a run ends *)

Lemma output_of_quiet e : quiet_event e = true -> output_of e = [].
Proof. intros H. apply output_of_hidden, quiet_callback_event, H. Qed.
Lemma payload_of_quiet e : quiet_event e = true -> payload_of e = [].
Proof. intros H. apply payload_of_hidden, quiet_callback_event, H. Qed.
Lemma step_of_quiet e : quiet_event e = true -> step_of e = [].
Proof. intros H. apply step_of_hidden, quiet_callback_event, H. Qed.
Lemma reset_error_of_quiet e : quiet_event e = true -> reset_error_of e = [].
Proof. intros H. apply reset_error_of_hidden, quiet_callback_event, H. Qed.
Lemma key_returned_of_quiet e : quiet_event e = true -> key_returned_of e = [].
Proof. destruct e; cbn; congruence. Qed.

Ltac read_fails_finish :=
  unfold read_fails, spec_resolve_input;
  repeat match goal with
         | H : (List.length (bytes_of_string ?s) =? 0)%nat = _ |- _ =>
             destruct s; cbn in H; try discriminate H; clear H
         end;
  use_equations; cbn [world_read fst snd]; use_equations;
  cbn [fst snd]; reflexivity.

Ltac no_mode_finish :=
  match goal with
  | H : negb (encryptFlag ?f) && negb (decryptFlag ?f) = true |- _ =>
      destruct (encryptFlag f), (decryptFlag f); try discriminate H;
      repeat split; reflexivity
  end.

Ltac not_diverges :=
  match goal with
  | H : decrypt_normalize _ _ = Diverges |- _ =>
      exfalso; exact (normalize_not_diverges _ _ H)
  end.

Ltac steps_before_device :=
  repeat (constructor; [first [left; reflexivity | right; reflexivity]|]);
  constructor.

Ltac ends_finish :=
  first
  [ not_diverges
  | unfold Part002_ends, exit_cause, printed, EINVAL;
    cbn [outputs payloads key_returned reset_errors steps flat_map
         output_of payload_of key_returned_of reset_error_of step_of app];
    split; [|split; [|split]];
    [ first
      [ eexists; split; [reflexivity|]; use_equations; reflexivity
      | split; [reflexivity|];
        first
        [ assumption
        | reflexivity
        | discriminate
        | split; [assumption | reflexivity]
        | split; [assumption|]; no_mode_finish
        | do 2 eexists; reflexivity
        | unfold usable_wallet; use_equations; cbn [negb andb]; reflexivity
        | read_fails_finish ] ]
    | unfold usable_wallet; use_equations; cbn [negb andb];
      let Hnone := fresh in
      intros Hnone;
      first [ discriminate Hnone
            | split; [eexists; reflexivity | steps_before_device] ]
    | let Hreset := fresh in
      intros Hreset;
      first [ split; reflexivity | exfalso; apply Hreset; reflexivity ]
    | let Hkey := fresh in
      intros ? ? Hkey; first [discriminate Hkey | reflexivity] ] ].

Lemma Part002_run_ends (f : Flags) (w : World) :
  wp quiet_event (Part002.main f w) (Part002_ends f w).
Proof. unfold Part002.main. wp_walk. all: ends_finish. Qed.

(** X10. Every run of part_002 ends in one of these ways.  It returns,
    and then the cipher operation gave a result without an error and the
    run printed it.  Or it exits: with 0 only for [--help], with 22 only
    when no mode was given, with 6 only when askpass discovery failed, with
    -1 only when the selected read failed, with 1 only when no usable
    wallet was there, with 2 only when the reset gave an error, with 3 only
    when the cipher operation gave one; there is no other code, and nothing
    is printed.  Or it panics, on the parity check under [--decrypt].  The
    padding loop always stops.  Conversely: without a usable wallet the run
    stops before it registers a callback; a reset that fails gives exit
    code 2 before any payload reaches the device; an error of the cipher
    operation gives exit code 3. *)
Theorem part_002_exit_codes (f : Flags) (w : World) :
  Part002_ends f w (events (Part002.main f w)) (outcome (Part002.main f w)).
Proof.
  pose proof (Part002_run_ends f w) as H.
  unfold wp, Part002_ends, exit_cause, outputs, key_returned, reset_errors,
    steps, payloads in *.
  set (m := Part002.main f w) in *.
  rewrite <- (observed_visible quiet_event output_of (events m) output_of_quiet) in H.
  rewrite <- (observed_visible quiet_event key_returned_of (events m)
                key_returned_of_quiet) in H.
  rewrite <- (observed_visible quiet_event reset_error_of (events m)
                reset_error_of_quiet) in H.
  rewrite <- (observed_visible quiet_event step_of (events m) step_of_quiet) in H.
  rewrite <- (observed_visible quiet_event payload_of (events m) payload_of_quiet) in H.
  exact H.
Qed.

Ltac stdout_finish :=
  unfold stdout_is_result;
  cbn [stdout_writes outputs flat_map stdout_of output_of app];
  split; [reflexivity | first [reflexivity | eexists; reflexivity]].

Lemma Part002_stdout_walk (f : Flags) (w : World) :
  wp quiet_event (Part002.main f w) stdout_is_result.
Proof.
  unfold Part002.main. wp_walk. all: first [not_diverges | stdout_finish].
Qed.

(** X11. In part_002 nothing but the result reaches standard output,
    with [--verbose] or without: a run that returns has written it there
    once, as its only write; a run that stops has written nothing there.
    Progress lines, complaints and what the askpass program shows all go to
    standard error. *)
Theorem part_002_stdout_is_result (f : Flags) (w : World) :
  stdout_is_result (events (Part002.main f w)) (outcome (Part002.main f w)).
Proof.
  pose proof (Part002_stdout_walk f w) as H.
  unfold wp, stdout_is_result, stdout_writes, outputs in *.
  set (m := Part002.main f w) in *.
  rewrite <- (observed_visible quiet_event stdout_of (events m) stdout_of_quiet) in H.
  rewrite <- (observed_visible quiet_event output_of (events m) output_of_quiet) in H.
  exact H.
Qed.

Ltac ends001_finish :=
  first
  [ not_diverges
  | unfold Part001_ends, trezor_found, printed, EINVAL;
    cbn [outputs payloads returned reset_errors steps flat_map output_of
         payload_of returned_of reset_error_of step_of app];
    first
    [ do 2 eexists; split; [reflexivity|]; split; [assumption|];
      use_equations; reflexivity
    | split; [reflexivity|];
      first
      [ eexists; split; [reflexivity|]; split; [assumption | reflexivity]
      | split; [reflexivity|];
        first
        [ assumption
        | split; [assumption|]; no_mode_finish
        | read_fails_finish
        | split; [reflexivity | discriminate]
        | left; split; [reflexivity|]; split; [|reflexivity];
          use_equations; cbn [negb] in *;
          first [ reflexivity | assumption
                | match goal with
                  | H : negb ?b = true |- ?b = false =>
                      destruct b; [discriminate H | reflexivity]
                  end ]
        | right; split; [reflexivity | assumption] ] ] ] ].

Lemma Part001_run_ends (f : Flags) (w : World) :
  wp callback_event (Part001.main f w) (Part001_ends f w).
Proof. unfold Part001.main. wp_run. all: ends001_finish. Qed.

(** X12. Every run of part_001 ends in one of these ways.  It returns,
    after an accepted status, with the result printed.  Or it exits: with 0
    only for [--help], with 22 only when no mode was given, with -1 only
    when the selected read failed.  Everything about the device is a panic:
    "No trezor devices found" when no wallet was found or the wallet is no
    Trezor, and then the run has done nothing but select its mode; the
    error of the reset; the parity check under [--decrypt]; the unexpected
    status.  No run that stops prints a result, none but the one with the
    unexpected status has handed a payload to the device, and the padding
    loop always stops. *)
Theorem part_001_endings (f : Flags) (w : World) :
  Part001_ends f w (events (Part001.main f w)) (outcome (Part001.main f w)).
Proof.
  pose proof (Part001_run_ends f w) as H.
  unfold wp, Part001_ends, outputs, payloads, returned, reset_errors, steps
    in *.
  set (m := Part001.main f w) in *.
  rewrite <- (observed_visible callback_event output_of (events m)
                output_of_hidden) in H.
  rewrite <- (observed_visible callback_event payload_of (events m)
                payload_of_hidden) in H.
  rewrite <- (observed_visible callback_event returned_of (events m)
                returned_of_hidden) in H.
  rewrite <- (observed_visible callback_event reset_error_of (events m)
                reset_error_of_hidden) in H.
  rewrite <- (observed_visible callback_event step_of (events m)
                step_of_hidden) in H.
  exact H.
Qed.

Ltac endsGo_finish :=
  first
  [ not_diverges
  | unfold MainGo_ends, printed, EINVAL;
    cbn [outputs payloads returned flat_map output_of payload_of returned_of
         app];
    split; [repeat constructor|];
    first
    [ do 2 eexists; split; [reflexivity|]; split; [assumption|];
      use_equations; reflexivity
    | split; [reflexivity|];
      first
      [ eexists; split; [reflexivity|]; split; [assumption | reflexivity]
      | split; [reflexivity|];
        first
        [ left; assumption
        | right; no_mode_finish
        | use_equations; cbn [snd]; discriminate
        | split; [reflexivity | assumption] ] ] ] ].

Lemma MainGo_run_ends (f : Flags) (w : World) :
  wp nothing_hidden (MainGo.main f w) (MainGo_ends f w).
Proof. unfold MainGo.main. wp_run. all: endsGo_finish. Qed.

(** X13. main.go has few effects: it writes, reads standard input,
    creates the device instance and calls the cipher operation; it never
    reads the environment or a file, never registers a callback and never
    resets the device.  A run returns after an accepted status with the
    result printed; it exits with 22 for [--help] as well as for a missing
    mode, with -1 when reading standard input failed; it panics on the
    parity check under [--decrypt] and on an unexpected status. *)
Theorem main_go_endings (f : Flags) (w : World) :
  MainGo_ends f w (events (MainGo.main f w)) (outcome (MainGo.main f w)).
Proof.
  pose proof (MainGo_run_ends f w) as H.
  unfold wp in H. now rewrite visible_nothing_hidden in H.
Qed.

Lemma MainGo_ordered (f : Flags) (w : World) :
  wp callback_event (MainGo.main f w) (ordered f main_go_order []).
Proof.
  unfold MainGo.main. wp_run. all: unfold main_go_order; steps_finish.
Qed.

(** X14. The steps of main.go: mode, input, padding (under [--decrypt]),
    cipher operation, validation of the status, hex encoding (under
    [--encrypt --hex]), output; each at most once and in this order, all of
    them when the run returns, a proper initial part when it stops. *)
Theorem main_go_steps_in_order (f : Flags) (w : World) :
  follows f [StMode; StInput; StPad; StCipher; StValidate; StHex; StOutput]
    (events (MainGo.main f w)) (outcome (MainGo.main f w)).
Proof.
  pose proof (MainGo_ordered f w) as [H _].
  unfold follows, steps in *.
  set (m := MainGo.main f w) in *.
  rewrite <- (observed_visible callback_event step_of (events m)
                step_of_hidden) in H.
  exact H.
Qed.

(** ** The call of the cipher operation *)

Lemma cipher_call_of_hidden e :
  callback_event e = true -> cipher_call_of e = [].
Proof. destruct e; cbn; congruence. Qed.

Ltac shape_finish :=
  unfold cipher_call_shape;
  cbn [cipher_calls flat_map cipher_call_of app call_path call_encrypt
       call_keyName call_iv call_ask call_data];
  try exact I;
  unfold handed, resolved_input; use_equations; cbn [fst snd];
  repeat split; try reflexivity; try assumption.

Lemma MainGo_cipher_call (f : Flags) (w : World) :
  wp callback_event (MainGo.main f w) (fun v _ =>
    cipher_call_shape f MainGo.derivation_path MainGo.iv
      (fst (ioutil_ReadAll_Stdin w)) (Some (true, true)) (cipher_calls v)).
Proof. unfold MainGo.main. wp_run. all: shape_finish. Qed.

Lemma Part001_cipher_call (f : Flags) (w : World) :
  wp callback_event (Part001.main f w) (fun v _ =>
    cipher_call_shape f Part001.derivation_path Part001.iv
      (resolved_input f w) (Some (true, true)) (cipher_calls v)).
Proof. unfold Part001.main. wp_run. all: shape_finish. Qed.

Lemma Part002_cipher_call (f : Flags) (w : World) :
  wp callback_event (Part002.main f w) (fun v _ =>
    cipher_call_shape f Part002.derivation_path Part002.iv
      (resolved_input f w) None (cipher_calls v)).
Proof. unfold Part002.main. wp_run. all: shape_finish. Qed.

(** X15. A run calls the cipher operation at most once, and always with
    its revision's fixed key path and initialization vector, the value of
    [--key-name] as it was given, and the direction of [--encrypt] alone:
    with both [--encrypt] and [--decrypt] the device is asked to encrypt,
    and what it gets is the padded hex text of the decrypt side.  main.go
    and part_001 ask for a confirmation on both directions.  The vector of
    main.go has 16 bytes, that of part_001 and part_002 has 15. *)
Theorem device_call_arguments (f : Flags) (w : World) :
  cipher_call_shape f "m/71'/a6'/3'/45'/97'" MainGo.iv
    (fst (ioutil_ReadAll_Stdin w)) (Some (true, true))
    (cipher_calls (events (MainGo.main f w)))
  /\ cipher_call_shape f "m/10019'/1'" (bytes_of_string "trezorCipher IV")
       (resolved_input f w) (Some (true, true))
       (cipher_calls (events (Part001.main f w)))
  /\ cipher_call_shape f "m/10019'/1'" (bytes_of_string "trezorCipher IV")
       (resolved_input f w) None
       (cipher_calls (events (Part002.main f w)))
  /\ List.length MainGo.iv = 16
  /\ List.length (bytes_of_string "trezorCipher IV") = 15.
Proof.
  pose proof (MainGo_cipher_call f w) as H0.
  pose proof (Part001_cipher_call f w) as H1.
  pose proof (Part002_cipher_call f w) as H2.
  unfold wp, cipher_calls in *.
  rewrite <- (observed_visible callback_event cipher_call_of
                (events (MainGo.main f w)) cipher_call_of_hidden) in H0.
  rewrite <- (observed_visible callback_event cipher_call_of
                (events (Part001.main f w)) cipher_call_of_hidden) in H1.
  rewrite <- (observed_visible callback_event cipher_call_of
                (events (Part002.main f w)) cipher_call_of_hidden) in H2.
  split; [exact H0|]. split; [exact H1|]. split; [exact H2|].
  split; reflexivity.
Qed.

(** ** The prompt programs *)

Lemma client_op_of_backstage e :
  backstage_event e = true -> client_op_of e = [].
Proof. destruct e; cbn; congruence. Qed.

Ltac client_finish :=
  first
  [ not_diverges
  | unfold Part001_client, Part002_client, EINVAL;
    cbn [client_ops flat_map client_op_of app];
    use_equations;
    first [ reflexivity
          | match goal with
            | |- context [usePinentryFlag ?f] =>
                destruct (usePinentryFlag f); reflexivity
            end ] ].

Lemma Part001_client_closed (f : Flags) (w : World) :
  wp backstage_event (Part001.main f w) (Part001_client f).
Proof. unfold Part001.main. wp_walk. all: client_finish. Qed.

Lemma Part002_client_closed (f : Flags) (w : World) :
  wp backstage_event (Part002.main f w) (Part002_client f).
Proof. unfold Part002.main. wp_walk. all: client_finish. Qed.

(** X16. The pinentry client of [--use-pinentry] is opened at most once,
    and [defer p.Close()] closes it when [main] returns or panics after
    that.  A run that leaves by [os.Exit]
    after the client was opened never closes it: in part_001 the exit of a
    failed read, in part_002 the exits of a failed reset (code 2) and of an
    error of the cipher operation (code 3).  Without the flag there is no
    client. *)
Theorem pinentry_client_closing (f : Flags) (w : World) :
  Part001_client f (events (Part001.main f w)) (outcome (Part001.main f w))
  /\ Part002_client f (events (Part002.main f w)) (outcome (Part002.main f w)).
Proof.
  pose proof (Part001_client_closed f w) as H1.
  pose proof (Part002_client_closed f w) as H2.
  unfold wp, Part001_client, Part002_client, client_ops in *.
  rewrite <- (observed_visible backstage_event client_op_of
                (events (Part001.main f w)) client_op_of_backstage) in H1.
  rewrite <- (observed_visible backstage_event client_op_of
                (events (Part002.main f w)) client_op_of_backstage) in H2.
  split; assumption.
Qed.

Lemma nothing_visible (shown : Event -> bool) (t : list Event) :
  visible (all_but shown) t = [] -> Forall (fun e => shown e = false) t.
Proof.
  unfold visible, all_but. induction t as [|e t IH]; [constructor|].
  cbn [filter]. rewrite negb_involutive.
  destruct (shown e) eqn:E; [discriminate|].
  intros H. constructor; [exact E | exact (IH H)].
Qed.

Lemma Part001_with_pinentry (f : Flags) (w : World) :
  usePinentryFlag f = true ->
  wp (all_but askpass_event) (Part001.main f w) (fun v _ => v = []).
Proof.
  intros Hp. unfold Part001.main. rewrite Hp. wp_walk. all: reflexivity.
Qed.

Lemma Part002_with_pinentry (f : Flags) (w : World) :
  usePinentryFlag f = true ->
  wp (all_but askpass_event) (Part002.main f w) (fun v _ => v = []).
Proof.
  intros Hp. unfold Part002.main. rewrite Hp. wp_walk. all: reflexivity.
Qed.

Lemma Part001_without_pinentry (f : Flags) (w : World) :
  usePinentryFlag f = false ->
  wp (all_but pinentry_event) (Part001.main f w) (fun v _ => v = []).
Proof.
  intros Hp. unfold Part001.main. rewrite Hp. wp_walk. all: reflexivity.
Qed.

Lemma Part002_without_pinentry (f : Flags) (w : World) :
  usePinentryFlag f = false ->
  wp (all_but pinentry_event) (Part002.main f w) (fun v _ => v = []).
Proof.
  intros Hp. unfold Part002.main. rewrite Hp. wp_walk. all: reflexivity.
Qed.

(** X17. The two prompt backends exclude each other.  With
    [--use-pinentry] no run of part_001 or part_002 starts an askpass
    program or a pseudo-terminal, whatever the device asks; without it no
    run opens a pinentry client or asks one for a PIN. *)
Theorem prompt_backends_exclusive (f : Flags) (w : World) :
  if usePinentryFlag f then
    Forall (fun e => askpass_event e = false) (events (Part001.main f w))
    /\ Forall (fun e => askpass_event e = false) (events (Part002.main f w))
  else
    Forall (fun e => pinentry_event e = false) (events (Part001.main f w))
    /\ Forall (fun e => pinentry_event e = false) (events (Part002.main f w)).
Proof.
  destruct (usePinentryFlag f) eqn:Hp; split; apply nothing_visible.
  - exact (Part001_with_pinentry f w Hp).
  - exact (Part002_with_pinentry f w Hp).
  - exact (Part001_without_pinentry f w Hp).
  - exact (Part002_without_pinentry f w Hp).
Qed.

(** ** Setting up the device *)

Lemma setup_of_hidden e : callback_event e = true -> setup_of e = [].
Proof. destruct e; cbn; congruence. Qed.

Ltac setup_finish :=
  unfold sets_up, Part002_setup, Part001_setup;
  cbn [setup payloads flat_map setup_of payload_of app];
  use_equations;
  eexists; split;
  [ reflexivity
  | let H := fresh in
    intros H; first [reflexivity | exfalso; apply H; reflexivity] ].

Lemma Part001_sets_up (f : Flags) (w : World) :
  wp callback_event (Part001.main f w) (fun v _ => sets_up Part001_setup v).
Proof. unfold Part001.main. wp_run. all: setup_finish. Qed.

Lemma Part002_sets_up (f : Flags) (w : World) :
  wp callback_event (Part002.main f w)
     (fun v _ => sets_up (Part002_setup f) v).
Proof. unfold Part002.main. wp_run. all: setup_finish. Qed.

(** X18. Before a payload reaches the device a run has found it and set
    it up, each call once and in this order.  part_001: [FindAny], the PIN
    callback, the confirmation callback, the reset.  part_002 under
    [--dummy]: [NewDummy], the two callbacks, the reset, and neither
    [FindAny] nor [SetDefaultAskOnEncode]; without [--dummy]: [FindAny],
    [SetDefaultAskOnEncode(true)], the two callbacks, the reset, and never
    [NewDummy].  A run that stops earlier has gone through an initial part
    of these calls. *)
Theorem device_setup_order (f : Flags) (w : World) :
  sets_up [EvFindAny; EvSetGetPinFunc; EvSetGetConfirmFunc; EvReset]
    (events (Part001.main f w))
  /\ sets_up
       (if dummyDeviceFlag f
        then [EvNewDummy; EvSetGetPinFunc; EvSetGetConfirmFunc; EvReset]
        else [EvFindAny; EvSetDefaultAskOnEncode true; EvSetGetPinFunc;
              EvSetGetConfirmFunc; EvReset])
       (events (Part002.main f w)).
Proof.
  pose proof (Part001_sets_up f w) as H1.
  pose proof (Part002_sets_up f w) as H2.
  unfold wp, sets_up, setup, payloads in *.
  set (m1 := Part001.main f w) in *. set (m2 := Part002.main f w) in *.
  rewrite <- (observed_visible callback_event setup_of (events m1)
                setup_of_hidden) in H1.
  rewrite <- (observed_visible callback_event payload_of (events m1)
                payload_of_hidden) in H1.
  rewrite <- (observed_visible callback_event setup_of (events m2)
                setup_of_hidden) in H2.
  rewrite <- (observed_visible callback_event payload_of (events m2)
                payload_of_hidden) in H2.
  split; assumption.
Qed.
